(** * Interactive genetic melody generator: the decoder and the rating session

    A shallow embedding of [src/mgen.py]: the genome decoder
    ([int_from_bits], [genome_to_melody]) and the steady-state session
    ([init_session_state], [generate_next_candidate], [submit_rating]);
    then the streams and file names ([genome_to_stream],
    [save_genome_to_midi]), the interactive loop ([fitness], [main]), the
    one-shot generator ([generate_midi_file]) and the two endpoints of
    [src/backend/main.py] over the dict of sessions.

    Conventions of the embedding.
    - A Python [int] is a [Z]; a genome ([List[int]]) is a [list Z].
    - A Python [float] duration is an exact rational [Q]; the only float
      operations of the source are [4 / float(num_notes)] and [+=].
    - A call that can raise returns a [result]; a function that mutates the
      session dict and can raise returns the dict after the call together
      with the outcome, since the mutations made before the exception stay.
    - Draws of the [random] module are explicit arguments.
    - [music21] and the GA operators of [algorithms.genetic] are not part of
      the two files; each is an interface ([Music21], [GeneticOps]) that the
      definitions and theorems are parametric in. [SpecOps] gives the
      operators as the specification describes them, for the examples and
      for what depends on the operators returning.
    - Outside the model: [float(num_notes)] overflowing on an [int] beyond
      the float range, the rounding of float additions, and what music21
      raises on a key name it cannot parse. *)

From Stdlib Require Import ZArith QArith Lia.
From Stdlib Require Import DecimalString Ascii Sorted.
From stdpp Require Import base list strings pretty gmap.

Open Scope Z_scope.

(** ** Exceptions and results *)

Inductive exn : Type :=
| ZeroDivisionError
| ValueError
| TypeError
| IndexError
| OSError.

Inductive result (A : Type) : Type :=
| Ok (a : A)
| Raise (e : exn).

Arguments Ok {A} a.
Arguments Raise {A} e.

#[export] Instance result_ret : MRet result := fun A a => Ok a.

#[export] Instance result_bind : MBind result := fun A B k r =>
  match r with
  | Ok a => k a
  | Raise e => Raise e
  end.

(** [[f(x) for x in xs]] where [f] can raise: the first exception wins. *)
Fixpoint for_each {A B : Type} (f : A -> result B) (xs : list A) : result (list B) :=
  match xs with
  | [] => Ok []
  | x :: rest =>
      y ← f x;
      ys ← for_each f rest;
      Ok (y :: ys)
  end.

(** ** Genomes and bit chunks *)

Definition Genome : Type := list Z.

Definition BITS_PER_NOTE : Z := 4.

(** [sum([bit * pow(2, index) for index, bit in enumerate(bits)])] *)
Definition int_from_bits (bits : list Z) : Z :=
  foldl Z.add 0 (imap (fun index bit => bit * 2 ^ Z.of_nat index) bits).

(** [l[lo:hi]] for [0 <= lo <= hi]: Python clips the slice to the list. *)
Definition slice {A : Type} (l : list A) (lo hi : Z) : list A :=
  take (Z.to_nat (hi - lo)) (drop (Z.to_nat lo) l).

(** [range(n)] *)
Definition range (n : Z) : list Z := seqZ 0 n.

Definition chunks_of (genome : Genome) (num_bars num_notes : Z) : list (list Z) :=
  map (fun i => slice genome (i * BITS_PER_NOTE) (i * BITS_PER_NOTE + BITS_PER_NOTE))
      (range (num_bars * num_notes)).

(** ** The melody dict

    [melody = {"notes": [], "velocity": [], "beat": []}]: three parallel
    lists. At the end of [genome_to_melody] the key ["notes"] is rebound to
    the list of steps; [StepMelody] is the dict after that. *)

Record Melody : Type := mkMelody {
  notes : list Z;
  velocity : list Z;
  beat : list Q
}.

Record StepMelody : Type := mkStepMelody {
  step_notes : list (list Z);
  step_velocity : list Z;
  step_beat : list Q
}.

Definition empty_melody : Melody := mkMelody [] [] [].

(** [4 / float(num_notes)] *)
Definition note_length_of (num_notes : Z) : result Q :=
  if num_notes =? 0 then Raise ZeroDivisionError
  else Ok (4 / inject_Z num_notes)%Q.

(** [xs[-1] += d]. On an empty list Python raises IndexError; the decoder
    only gets here with [beat] as long as the non-empty [notes]
    (see [decode_aligned]). *)
Definition add_to_last (xs : list Q) (d : Q) : list Q :=
  match last xs with
  | Some x => <[Nat.pred (length xs) := (x + d)%Q]> xs
  | None => xs
  end.

(** The body of [for note_bits in chunks]. *)
Definition decode_chunk (pauses : bool) (note_length : Q)
    (melody : Melody) (note_bits : list Z) : Melody :=
  let integer := int_from_bits note_bits in
  let integer :=
    if pauses then integer else integer `mod` 2 ^ (BITS_PER_NOTE - 1) in
  if 2 ^ (BITS_PER_NOTE - 1) <=? integer then
    (* rest if highest bit set *)
    mkMelody (notes melody ++ [0]) (velocity melody ++ [0])
             (beat melody ++ [note_length])
  else if bool_decide (0 < length (notes melody))%nat
          && bool_decide (last (notes melody) = Some integer) then
    (* extend same note *)
    mkMelody (notes melody) (velocity melody)
             (add_to_last (beat melody) note_length)
  else
    mkMelody (notes melody ++ [integer]) (velocity melody ++ [127])
             (beat melody ++ [note_length]).

Definition decode_chunks (pauses : bool) (note_length : Q)
    (chunks : list (list Z)) : Melody :=
  foldl (decode_chunk pauses note_length) empty_melody chunks.

(** The body of [for v in melody["notes"]] of one step. *)
Definition step_pitch (scale_pitches : list Z) (step v : Z) : result Z :=
  if v =? 0 then Ok 0
  else
    let n := Z.of_nat (length scale_pitches) in
    if n =? 0 then Raise ZeroDivisionError
    else
      let idx := (v + step * 2) `mod` n in
      match scale_pitches !! Z.to_nat idx with
      | Some midi => Ok midi
      | None => Raise IndexError
      end.

Definition expand_steps (scale_pitches : list Z) (num_steps : Z)
    (melody_notes : list Z) : result (list (list Z)) :=
  for_each (fun step => for_each (step_pitch scale_pitches step) melody_notes)
           (range num_steps).

(** ** Scales: the interface to music21 *)

Inductive m21scale : Type :=
| MajorScale (tonic : string)
| MinorScale (tonic : string)
| DorianScale (tonic : string)
| PhrygianScale (tonic : string)
| LydianScale (tonic : string)
| MixolydianScale (tonic : string)
| ConcreteScale (tonic : string) (intervals : list string).

(** What the program uses of music21: [sc.getPitches()], each pitch by its
    [.midi] number, and the construction and writing of the streams of a
    decoded melody ([s.write("midi", fp=out)] for every step). What music21
    itself raises on a key name it cannot parse is outside the model. *)
Class Music21 : Type := {
  getPitches : m21scale -> list Z;
  write_midi : StepMelody -> Z -> string -> result unit
}.

Section Decoder.

Context {m21 : Music21}.

Definition _build_scale (key scale_name : string) : m21scale :=
  let sc :=
    if String.eqb scale_name "major" then MajorScale key
    else if String.eqb scale_name "minor" then MinorScale key
    else if String.eqb scale_name "dorian" then DorianScale key
    else if String.eqb scale_name "phrygian" then PhrygianScale key
    else if String.eqb scale_name "lydian" then LydianScale key
    else if String.eqb scale_name "mixolydian" then MixolydianScale key
    else if String.eqb scale_name "majorBlues" then
      ConcreteScale key ["P1"; "M2"; "m3"; "M3"; "P5"; "M6"]%string
    else if String.eqb scale_name "minorBlues" then
      ConcreteScale key ["P1"; "m3"; "P4"; "d5"; "P5"; "m7"]%string
    else MajorScale key in
  (* safety fallback *)
  match getPitches sc with
  | [] => MajorScale key
  | _ :: _ => sc
  end.

Definition resolve_pitches (key scale_name : string) : list Z :=
  let sc := _build_scale key scale_name in
  match getPitches sc with
  | [] => getPitches (MajorScale key)
  | p :: ps => p :: ps
  end.

Definition genome_to_melody (genome : Genome)
    (num_bars num_notes num_steps : Z) (pauses : bool)
    (key scale_name : string) (root : Z) : result StepMelody :=
  let chunks := chunks_of genome num_bars num_notes in
  note_length ← note_length_of num_notes;
  let scale_pitches := resolve_pitches key scale_name in
  let melody := decode_chunks pauses note_length chunks in
  steps ← expand_steps scale_pitches num_steps (notes melody);
  Ok (mkStepMelody steps (velocity melody) (beat melody)).

End Decoder.

(** ** The random module *)

(** [random.randrange(n)]: ValueError on an empty range, else the draw
    reduced into [[0, n)]. *)
Definition randrange (n draw : Z) : result Z :=
  if n <=? 0 then Raise ValueError else Ok (draw `mod` n).

(** [random.randint(a, b)] for [a <= b]. *)
Definition randint (a b draw : Z) : Z := a + draw `mod` (b - a + 1).

(** [random.sample(population, 2)]: two distinct positions. *)
Definition random_sample2 {A : Type} (population : list A) (d1 d2 : Z)
    : result (A * A) :=
  let n := Z.of_nat (length population) in
  if n <? 2 then Raise ValueError
  else
    let i := d1 `mod` n in
    let j := d2 `mod` (n - 1) in
    let j := if j <? i then j else j + 1 in
    match population !! Z.to_nat i, population !! Z.to_nat j with
    | Some a, Some b => Ok (a, b)
    | _, _ => Raise IndexError
    end.

(** [try: body except TypeError: handler] *)
Definition except_TypeError {A : Type} (body handler : result A) : result A :=
  match body with
  | Raise TypeError => handler
  | r => r
  end.

(** ** The session dict *)

Record SessionState : Type := mkSessionState {
  num_bars : Z;
  num_notes : Z;
  pauses : bool;
  key : string;
  scale : string;
  bpm : Z;
  population_size : Z;
  num_mutations : Z;
  mutation_prob : Q;
  population : list Genome;
  ratings : list (Genome * Z);
  last_genome : option Genome;
  last_candidate_id : option string;
  generation : Z
}.

Definition set_generation (n : Z) (st : SessionState) : SessionState :=
  mkSessionState (num_bars st) (num_notes st) (pauses st) (key st) (scale st)
    (bpm st) (population_size st) (num_mutations st) (mutation_prob st)
    (population st) (ratings st) (last_genome st) (last_candidate_id st) n.

Definition set_population (p : list Genome) (st : SessionState) : SessionState :=
  mkSessionState (num_bars st) (num_notes st) (pauses st) (key st) (scale st)
    (bpm st) (population_size st) (num_mutations st) (mutation_prob st)
    p (ratings st) (last_genome st) (last_candidate_id st) (generation st).

Definition set_ratings (r : list (Genome * Z)) (st : SessionState) : SessionState :=
  mkSessionState (num_bars st) (num_notes st) (pauses st) (key st) (scale st)
    (bpm st) (population_size st) (num_mutations st) (mutation_prob st)
    (population st) r (last_genome st) (last_candidate_id st) (generation st).

Definition set_last_genome (g : option Genome) (st : SessionState) : SessionState :=
  mkSessionState (num_bars st) (num_notes st) (pauses st) (key st) (scale st)
    (bpm st) (population_size st) (num_mutations st) (mutation_prob st)
    (population st) (ratings st) g (last_candidate_id st) (generation st).

Definition set_last_candidate_id (c : option string) (st : SessionState) : SessionState :=
  mkSessionState (num_bars st) (num_notes st) (pauses st) (key st) (scale st)
    (bpm st) (population_size st) (num_mutations st) (mutation_prob st)
    (population st) (ratings st) (last_genome st) c (generation st).

(** A statement sequence over the session dict: it returns the dict as the
    statements left it, and either a value or the exception that stopped
    them. *)
Definition sess (A : Type) : Type := SessionState -> SessionState * result A.

#[export] Instance sess_ret : MRet sess := fun A a st => (st, Ok a).

#[export] Instance sess_bind : MBind sess := fun A B k m st =>
  match m st with
  | (st', Ok a) => k a st'
  | (st', Raise e) => (st', Raise e)
  end.

Definition read {A : Type} (f : SessionState -> A) : sess A :=
  fun st => (st, Ok (f st)).

Definition update (f : SessionState -> SessionState) : sess unit :=
  fun st => (f st, Ok tt).

Definition call {A : Type} (r : result A) : sess A :=
  fun st => (st, r).

(** The draws of one [generate_next_candidate]: the generator states handed
    to the operators, and the numbers drawn by the function itself. *)
Record Draws : Type := mkDraws {
  selection_draw : Z;
  sample_draw1 : Z;
  sample_draw2 : Z;
  crossover_draw : Z;
  crossover_draw2 : Z;
  coin : Q;
  mutation_draw : Z;
  replace_draw : Z;
  id_draw : Z
}.

(** The loop of [fitness_func]: the first record with an equal genome. *)
Fixpoint fitness_scan (records : list (Genome * Z)) (genome : Genome) : Z :=
  match records with
  | [] => 0
  | (g, r) :: rest =>
      if bool_decide (g = genome) then r else fitness_scan rest genome
  end.

Definition _fitness_lookup_from_ratings (state : SessionState) : Genome -> Z :=
  fun genome => fitness_scan (ratings state) genome.

Definition candidate_id_of (generation n : Z) : string :=
  ("g" +:+ pretty generation +:+ "_" +:+ pretty n)%string.

(** The imports from [algorithms.genetic]. Each operator takes the
    generator state it draws from as its first argument, returns a value or
    raises, and leaves the lists it is given as they are. *)
Class GeneticOps : Type := {
  generate_genome : Z -> Z -> Genome;
  selection_pair : Z -> list Genome -> (Genome -> Z) -> result (Genome * Genome);
  single_point_crossover : Z -> Genome -> Genome -> result (Genome * Genome);
  mutation : Z -> Genome -> Z -> Q -> result Genome
}.

Section Session.

Context {m21 : Music21} {ops : GeneticOps}.

Definition save_genome_to_midi (filename : string) (genome : Genome)
    (num_bars num_notes num_steps : Z) (pauses : bool)
    (key scale_name : string) (root bpm : Z) : result unit :=
  melody ← genome_to_melody genome num_bars num_notes num_steps
                            pauses key scale_name root;
  write_midi melody bpm filename.

(** [seeds i] is the generator state of the [i]-th [generate_genome]. *)
Definition init_session_state (num_bars num_notes : Z) (pauses : bool)
    (key scale : string) (bpm population_size num_mutations : Z)
    (mutation_prob : Q) (seeds : Z -> Z) : SessionState :=
  let genome_length := num_bars * num_notes * BITS_PER_NOTE in
  let population :=
    map (fun i => generate_genome (seeds i) genome_length) (range population_size) in
  mkSessionState num_bars num_notes pauses key scale bpm population_size
    num_mutations mutation_prob population [] None None 0.

(** The two [except TypeError] handlers are kept. The second one binds
    [child] to whatever [single_point_crossover] returns when called again;
    with the imported operator that is a pair of genomes, which no later
    statement can use as a genome, so the embedding ends that path with
    [TypeError]. *)
Definition generate_next_candidate (out_path : string) (steps : Z) (d : Draws)
    : sess string :=
  _ ← update (fun st => set_generation (generation st + 1) st);
  fitness_func ← read _fitness_lookup_from_ratings;
  (* pick parents with current ratings *)
  pop ← read population;
  parents ← call (except_TypeError
    (selection_pair (selection_draw d) pop fitness_func)
    (random_sample2 pop (sample_draw1 d) (sample_draw2 d)));
  child ← call (except_TypeError
    (children ← single_point_crossover (crossover_draw d) parents.1 parents.2;
     Ok (if Qle_bool (1 # 2) (coin d) then children.2 else children.1))
    (_ ← single_point_crossover (crossover_draw2 d) parents.1 parents.2;
     Raise TypeError));
  nm ← read num_mutations;
  mp ← read mutation_prob;
  child ← call (mutation (mutation_draw d) child nm mp);
  (* keep child inside population by replacing a random slot *)
  pop ← read population;
  replace_idx ← call (randrange (Z.of_nat (length pop)) (replace_draw d));
  _ ← update (fun st =>
        set_population (<[Z.to_nat replace_idx := child]> (population st)) st);
  _ ← update (set_last_genome (Some child));
  gen ← read generation;
  let candidate_id := candidate_id_of gen (randint 100000 999999 (id_draw d)) in
  _ ← update (set_last_candidate_id (Some candidate_id));
  st ← read id;
  _ ← call (save_genome_to_midi out_path child (num_bars st) (num_notes st)
              steps (pauses st) (key st) (scale st) 0 (bpm st));
  mret candidate_id.

Definition submit_rating (candidate_id : string) (rating : Z) (draw : Z)
    : sess unit :=
  let rating := Z.max 0 (Z.min 5 rating) in
  lg ← read last_genome;
  match lg with
  | None => mret tt
  | Some last =>
      (* attach rating to the last genome *)
      _ ← update (fun st => set_ratings (ratings st ++ [(last, rating)]) st);
      if 4 <=? rating then
        pop ← read population;
        idx ← call (randrange (Z.of_nat (length pop)) draw);
        update (fun st =>
          set_population (<[Z.to_nat idx := last]> (population st)) st)
      else mret tt
  end.

(** ** Runs of a session *)

Inductive api_call : Type :=
| ProduceCandidate (out_path : string) (steps : Z) (d : Draws)
| RecordRating (candidate_id : string) (rating : Z) (draw : Z).

(** The dict after one call; an exception leaves it as it was when raised. *)
Definition session_step (st : SessionState) (c : api_call) : SessionState :=
  match c with
  | ProduceCandidate out_path steps d =>
      (generate_next_candidate out_path steps d st).1
  | RecordRating candidate_id rating draw =>
      (submit_rating candidate_id rating draw st).1
  end.

Definition run (st : SessionState) (calls : list api_call) : SessionState :=
  foldl session_step st calls.

(** The dicts a caller can hold: made by [init_session_state], then passed
    through any calls. *)
Inductive reachable : SessionState -> Prop :=
| reachable_init num_bars num_notes pauses key scale bpm population_size
    num_mutations mutation_prob seeds :
    reachable (init_session_state num_bars num_notes pauses key scale bpm
                 population_size num_mutations mutation_prob seeds)
| reachable_step st c :
    reachable st -> reachable (session_step st c).

End Session.

(** ** Vocabulary of the properties *)

(** A genome is a sequence of bits. *)
Definition is_bit (b : Z) : Prop := b = 0 \/ b = 1.

(** The quarter-lengths of a decoded melody, added up. *)
Definition total_duration (m : StepMelody) : Q := foldr Qplus 0%Q (step_beat m).

(** Three parallel lists. *)
Definition aligned (m : Melody) : Prop :=
  length (velocity m) = length (notes m) /\ length (beat m) = length (notes m).

(** The dict after a [generate_next_candidate] that got as far as the
    replacement: [child] sits in slot [idx] and is the last genome. *)
Definition produced (st : SessionState) (child : Genome) (idx : nat) (cid : string)
    : SessionState :=
  set_last_candidate_id (Some cid)
    (set_last_genome (Some child)
      (set_population (<[idx := child]> (population st))
        (set_generation (generation st + 1) st))).

(** A duration as the chunk loop builds it: [note_length] appended, then
    [beat[-1] += note_length] for each of the [extra] chunks merged into
    the entry, the additions made in this order. *)
Definition merged_duration (note_length : Q) (extra : nat) : Q :=
  foldl Qplus note_length (replicate extra note_length).

(** The population has the configured size, and its genomes and the last
    genome the length [num_bars * num_notes * BITS_PER_NOTE] of the
    configuration. *)
Definition well_sized (st : SessionState) : Prop :=
  length (population st) = Z.to_nat (population_size st) /\
  Forall (fun g : Genome =>
            length g = Z.to_nat (num_bars st * num_notes st * BITS_PER_NOTE))
         (population st) /\
  forall g, last_genome st = Some g ->
    length g = Z.to_nat (num_bars st * num_notes st * BITS_PER_NOTE).

(** ** Instances for closed examples *)

(** The pitches music21 returns for the diatonic modes on C4 (one octave,
    both ends included). A scale that is not in the table has no pitches
    here, which the decoder turns into C major. *)
Definition c4_pitches (sc : m21scale) : list Z :=
  match sc with
  | MajorScale _ => [60; 62; 64; 65; 67; 69; 71; 72]
  | MinorScale _ => [60; 62; 63; 65; 67; 68; 70; 72]
  | DorianScale _ => [60; 62; 63; 65; 67; 69; 70; 72]
  | PhrygianScale _ => [60; 61; 63; 65; 67; 68; 70; 72]
  | LydianScale _ => [60; 62; 64; 66; 67; 69; 71; 72]
  | MixolydianScale _ => [60; 62; 64; 65; 67; 69; 70; 72]
  | ConcreteScale _ _ => []
  end.

Module SpecOps.

(** Modelled from the spec: [algorithms.genetic.generate_genome] (4.1,
    "a genome of the given length with each bit drawn at random"); bit [i]
    is bit [i] of the generator state. *)
Definition generate_genome (seed length : Z) : Genome :=
  map (fun i => Z.b2z (Z.testbit seed i)) (range length).

Fixpoint roulette (population : list Genome) (fitnessFn : Genome -> Z)
    (ticket : Z) : result Genome :=
  match population with
  | [] => Raise ValueError
  | g :: rest =>
      let weight := fitnessFn g + 1 in
      if ticket <? weight then Ok g else roulette rest fitnessFn (ticket - weight)
  end.

(** Modelled from the spec: [algorithms.genetic.selection_pair] (4.3,
    "selection probability increasing with fitness", "every genome with
    fitness 0 still has non-zero probability", fewer than two individuals
    is an error); the weight of a genome is its fitness plus one. *)
Definition selection_pair (seed : Z) (population : list Genome)
    (fitnessFn : Genome -> Z) : result (Genome * Genome) :=
  let total := foldr Z.add 0 (map (fun g => fitnessFn g + 1) population) in
  if bool_decide (length population < 2)%nat || (total <=? 0) then Raise ValueError
  else
    a ← roulette population fitnessFn (seed `mod` total);
    b ← roulette population fitnessFn ((seed `div` total) `mod` total);
    Ok (a, b).

(** Modelled from the spec: [algorithms.genetic.single_point_crossover]
    (4.3, equal lengths required, one cut point in [[1, length-1]], prefix
    and suffix swapped); a length that leaves no cut point is an error. *)
Definition single_point_crossover (seed : Z) (a b : Genome)
    : result (Genome * Genome) :=
  if negb (bool_decide (length a = length b)) then Raise ValueError
  else if bool_decide (length a < 2)%nat then Raise ValueError
  else
    let p := Z.to_nat (1 + seed `mod` (Z.of_nat (length a) - 1)) in
    Ok (take p a ++ drop p b, take p b ++ drop p a).

Fixpoint mutation_trials (trials : nat) (seed : Z) (genome : Genome)
    (mutationProbability : Q) : Genome :=
  match trials with
  | O => genome
  | S trials' =>
      let n := Z.of_nat (length genome) in
      let position := Z.to_nat (seed `mod` n) in
      let u := (inject_Z ((seed `div` n) `mod` 1000) / 1000)%Q in
      let genome' :=
        if Qle_bool mutationProbability u then genome
        else alter (fun bit => 1 - bit) position genome in
      mutation_trials trials' (seed `div` (n * 1000)) genome' mutationProbability
  end.

(** Modelled from the spec: [algorithms.genetic.mutation] (4.3,
    [mutationCount] trials, each picks one position and flips it with
    probability [mutationProbability]; a new genome is returned). *)
Definition mutation (seed : Z) (genome : Genome) (mutationCount : Z)
    (mutationProbability : Q) : result Genome :=
  if bool_decide (genome = []) && (0 <? mutationCount) then Raise ValueError
  else Ok (mutation_trials (Z.to_nat mutationCount) seed genome mutationProbability).

End SpecOps.

Definition spec_ops : GeneticOps :=
  Build_GeneticOps SpecOps.generate_genome SpecOps.selection_pair
    SpecOps.single_point_crossover SpecOps.mutation.

(** music21 on the tonic C4, with a writer that always succeeds. *)
Definition c4_music21 : Music21 :=
  Build_Music21 c4_pitches (fun _ _ _ => Ok tt).

Definition demo_draws : Draws := mkDraws 7 0 1 5 0 (1 # 4) 12345 2 4242.

(** One bar of two notes, three individuals, no rating yet. *)
Definition demo_init : SessionState :=
  init_session_state (ops := spec_ops) 1 2 true "C" "major" 120 3 2 (1 # 2)
    (fun i => 37 * (i + 1)).

(** [demo_init] after one [generate_next_candidate]. *)
Definition demo_session : SessionState :=
  session_step (m21 := c4_music21) (ops := spec_ops) demo_init
    (ProduceCandidate "cand.mid" 1 demo_draws).

(** [demo_session] after its candidate was rated 3, a second candidate
    was produced and that one was rated 2. *)
Definition rated_session : SessionState :=
  run (m21 := c4_music21) (ops := spec_ops) demo_session
    [RecordRating "g1_104242" 3 0;
     ProduceCandidate "cand.mid" 1 (mkDraws 11 0 1 3 0 (3 # 4) 777 0 5);
     RecordRating "g2_100005" 2 0].

(** [rated_session] after the second candidate was rated again, 5. *)
Definition rerated_session : SessionState :=
  (submit_rating "g2_100005" 5 0 rated_session).1.

(** ** The choices of the command line *)

Definition KEYS : list string :=
  ["C"; "C#"; "D"; "D#"; "E"; "F"; "F#"; "G"; "G#"; "A"; "A#"; "B"]%string.

Definition SCALES : list string :=
  ["major"; "minor"; "dorian"; "phrygian"; "lydian"; "mixolydian";
   "majorBlues"; "minorBlues"]%string.

(** One bar of four notes, chunks 0, 0, 8, 2, decoded in C major for two
    steps. *)
Definition demo_genome : Genome :=
  [0; 0; 0; 0;  0; 0; 0; 0;  0; 0; 0; 1;  0; 1; 0; 0].

Definition demo_melody : StepMelody :=
  mkStepMelody [[0; 0; 64]; [0; 0; 67]] [127; 0; 127]
    [(4 / 4 + 4 / 4)%Q; (4 / 4)%Q; (4 / 4)%Q].

(** ** Streams: [genome_to_stream] *)

(** The music21 objects the program creates. *)
Inductive m21element : Type :=
| MetronomeMark (number : Z)
| Piano
| Rest (quarterLength : Q)
| Note (midi velocity : Z) (quarterLength : Q).

(** A [stream.Stream()] is the sequence of calls made on it. *)
Inductive stream_call : Type :=
| StreamAppend (element : m21element)
| StreamInsert (offset : Q) (element : m21element).

Definition Stream : Type := list stream_call.

(** [for i, midi_val in enumerate(step_notes)], from index [i] on, with the
    stream and the offset the earlier iterations left. *)
Fixpoint stream_notes (melody : StepMelody) (i : nat) (step_notes : list Z)
    (s : Stream) (current_offset : Q) : result Stream :=
  match step_notes with
  | [] => Ok s
  | midi_val :: rest =>
      match step_beat melody !! i with
      | None => Raise IndexError
      | Some dur =>
          n ← (if midi_val =? 0 then Ok (Rest dur)
               else match step_velocity melody !! i with
                    | None => Raise IndexError
                    | Some vel => Ok (Note midi_val vel dur)
                    end);
          stream_notes melody (S i) rest (s ++ [StreamInsert current_offset n])
                       (current_offset + dur)%Q
      end
  end.

Section Streams.

Context {m21 : Music21}.

Definition genome_to_stream (genome : Genome)
    (num_bars num_notes num_steps : Z) (pauses : bool)
    (key scale_name : string) (root bpm : Z) : result (list Stream) :=
  melody ← genome_to_melody genome num_bars num_notes num_steps pauses
                            key scale_name root;
  for_each (fun step_notes =>
              stream_notes melody 0 step_notes
                [StreamAppend (MetronomeMark bpm); StreamAppend Piano] 0%Q)
           (step_notes melody).

(** [fitness] of the interactive loop. [show] is [streams[0].show("midi")];
    [typed] is what [int(input("Rating (0-5): "))] gives: a number,
    [None] when [int] raises ValueError, or the exception [input] raised. *)
Definition fitness (show : Stream -> result unit) (typed : result (option Z))
    (genome : Genome) (num_bars num_notes num_steps : Z) (pauses : bool)
    (key scale_name : string) (root bpm : Z) : result Z :=
  streams ← genome_to_stream genome num_bars num_notes num_steps pauses
                              key scale_name root bpm;
  Ok (match streams with
      | [] => 0 (* IndexError on [streams[0]], caught *)
      | s0 :: _ =>
          match show s0 with
          | Raise _ => 0
          | Ok _ =>
              match typed with
              | Raise _ => 0
              | Ok None => Z.max 0 (Z.min 5 0)
              | Ok (Some rating) => Z.max 0 (Z.min 5 rating)
              end
          end
      end).

End Streams.

(** ** File names: [save_genome_to_midi] *)

(** [str.lower] on the ASCII letters. *)
Definition lower_ascii (c : ascii) : ascii :=
  let n := N_of_ascii c in
  if ((65 <=? n) && (n <=? 90))%N then ascii_of_N (n + 32) else c.

Fixpoint lower (s : string) : string :=
  match s with
  | EmptyString => EmptyString
  | String c rest => String (lower_ascii c) (lower rest)
  end.

(** [if ext.lower() != ".mid": ext = ".mid"] *)
Definition midi_ext (ext : string) : string :=
  if String.eqb (lower ext) ".mid" then ext else ".mid"%string.

(** [out] of the iteration [i] of [for i, s in enumerate(streams)]. *)
Definition midi_out (base ext : string) (i : nat) : string :=
  match i with
  | O => base +:+ ext
  | S _ => base +:+ "_step" +:+ pretty i +:+ ext
  end.

(** The files written for [streams], [base] and [ext] being what
    [os.path.splitext(filename)] returned. *)
Definition midi_outs {A : Type} (base ext : string) (streams : list A) : list string :=
  imap (fun i _ => midi_out base (midi_ext ext) i) streams.

(** ** The interactive loop: one generation of [main] *)

(** [sorted(pop_fit, key=lambda x: x[1], reverse=True)]: descending, and
    stable (records of equal fitness keep their order). *)
Fixpoint insert_desc (x : Genome * Z) (l : list (Genome * Z)) : list (Genome * Z) :=
  match l with
  | [] => [x]
  | y :: l' => if y.2 <=? x.2 then x :: y :: l' else y :: insert_desc x l'
  end.

Definition sorted_desc (pop_fit : list (Genome * Z)) : list (Genome * Z) :=
  foldr insert_desc [] pop_fit.

(** The generator states of one iteration of the breeding loop. *)
Record PairDraws : Type := mkPairDraws {
  pair_selection_draw : Z;
  pair_crossover_draw : Z;
  pair_mutation_draw_a : Z;
  pair_mutation_draw_b : Z
}.

Section Main.

Context {m21 : Music21} {ops : GeneticOps}.

(** [streams[0].show("midi")] and [os.makedirs(path, exist_ok=True)]. *)
Variable show : Stream -> result unit.
Variable makedirs : string -> result unit.

(** The body of [for _ in range(int(len(population) / 2) - 1)]. *)
Definition breed (population : list Genome) (fitness_lookup : Genome -> Z)
    (num_mutations : Z) (mutation_probability : Q) (d : PairDraws)
    : result (list Genome) :=
  parents ← selection_pair (pair_selection_draw d) population fitness_lookup;
  children ← single_point_crossover (pair_crossover_draw d) parents.1 parents.2;
  a ← mutation (pair_mutation_draw_a d) children.1 num_mutations mutation_probability;
  b ← mutation (pair_mutation_draw_b d) children.2 num_mutations mutation_probability;
  Ok [a; b].

(** The body of [while running] up to [population = next_generation]:
    [population] is the list as [random.shuffle] left it, [typed i] the
    rating typed for the genome at position [i], [draws k] the draws of
    the [k]-th breeding. The result is [next_generation]. *)
Definition main_generation (population : list Genome)
    (num_bars num_notes num_steps : Z) (pauses : bool) (key scale : string)
    (root num_mutations : Z) (mutation_probability : Q) (bpm : Z)
    (folder : string) (population_id : Z)
    (typed : nat -> result (option Z)) (draws : Z -> PairDraws)
    : result (list Genome) :=
  pop_fit ← for_each
    (fun ig : nat * Genome =>
       f ← fitness show (typed ig.1) ig.2 num_bars num_notes num_steps pauses
                   key scale root bpm;
       Ok (ig.2, f))
    (imap pair population);
  let pop_fit_sorted := sorted_desc pop_fit in
  let population := map fst pop_fit_sorted in
  (* fitness lookup required by selection_pair *)
  let fitness_lookup := fitness_scan pop_fit in
  let next_generation := take 2 population (* elite *) in
  children ← for_each
    (fun k => breed population fitness_lookup num_mutations mutation_probability
                    (draws k))
    (range (Z.of_nat (length population) / 2 - 1));
  let next_generation := next_generation ++ concat children in
  _ ← makedirs (folder +:+ "/" +:+ pretty population_id);
  _ ← for_each
    (fun ig : nat * Genome =>
       save_genome_to_midi
         (folder +:+ "/" +:+ pretty population_id +:+ "/" +:+ scale +:+ "-"
            +:+ key +:+ "-" +:+ pretty ig.1 +:+ ".mid")
         ig.2 num_bars num_notes num_steps pauses key scale root bpm)
    (imap pair population);
  Ok next_generation.

End Main.

(** ** The one-shot generator *)

Section OneShot.

Context {m21 : Music21} {ops : GeneticOps}.

(** The session dict [generate_midi_file] leaves behind, and the outcome
    of its [generate_next_candidate]; the function itself returns [None]. *)
Definition generate_midi_file (out_path : string)
    (num_bars num_notes num_steps : Z) (pauses : bool) (key scale : string)
    (root bpm population_size num_mutations : Z) (mutation_prob : Q)
    (seeds : Z -> Z) (d : Draws) : SessionState * result unit :=
  let state := init_session_state num_bars num_notes pauses key scale bpm
                 population_size num_mutations mutation_prob seeds in
  match generate_next_candidate out_path num_steps d state with
  | (state', Ok _) => (state', Ok tt)
  | (state', Raise e) => (state', Raise e)
  end.

End OneShot.

(** A population of five one-note genomes for the interactive loop, the
    ratings typed for them (-1, 1, 3, 5, 7) and the draws of a breeding. *)
Definition demo_population : list Genome :=
  [[1; 0; 0; 0]; [0; 1; 0; 0]; [1; 1; 0; 0]; [0; 0; 1; 0]; [1; 0; 1; 0]].

Definition demo_typed (i : nat) : result (option Z) :=
  Ok (Some (Z.of_nat i * 2 - 1)).

Definition demo_pair_draws (k : Z) : PairDraws := mkPairDraws 3 1 5 6.

Definition demo_next_generation : list Genome :=
  [[0; 0; 1; 0]; [1; 0; 1; 0]; [0; 1; 1; 0]; [0; 0; 0; 0]].

(** ** Counting the calls of a run *)

Definition is_produce (c : api_call) : bool :=
  match c with
  | ProduceCandidate _ _ _ => true
  | RecordRating _ _ _ => false
  end.

(** The parameters a session was created with. *)
Definition configuration (st : SessionState)
    : Z * Z * bool * string * string * Z * Z * Z * Q :=
  (num_bars st, num_notes st, pauses st, key st, scale st, bpm st,
   population_size st, num_mutations st, mutation_prob st).

(** ** The HTTP backend: [backend/main.py] *)

(** [GenerateRequest]; the fields are prefixed, [key], [scale], [pauses]
    and [population] being fields of the session dict here. *)
Record GenerateRequest : Type := mkGenerateRequest {
  req_key : string;
  req_scale : string;
  req_bars : Z;
  req_notes_per_bar : Z;
  req_steps : Z;
  req_tempo : Z;
  req_generations : Z;
  req_population : Z;
  req_pauses : bool
}.

(** The defaults of [GenerateRequest]. *)
Definition default_request : GenerateRequest :=
  mkGenerateRequest "C" "major" 8 4 1 120 50 60 true.

Record RateRequest : Type := mkRateRequest {
  rate_session_id : string;
  rate_candidate_id : string;
  rate_rating : Z
}.

(** A value of [SESSIONS]:
    [{"state", "last_candidate_id", "out_dir", "params"}]. *)
Record Session : Type := mkSession {
  sess_state : SessionState;
  sess_last_candidate_id : string;
  sess_out_dir : string;
  sess_params : GenerateRequest
}.

(** [detail] of an [HTTPException]: a fixed message, or the text made of
    an exception and its traceback. *)
Inductive detail : Type :=
| Message (text : string)
| Traceback (e : exn).

(** What an endpoint returns or raises: a [FileResponse] with the two
    headers, or an [HTTPException]. *)
Inductive response : Type :=
| FileResponse (path x_session_id x_candidate_id : string)
| HTTPException (status_code : Z) (d : detail).

(** [os.path.join(a, b)] for a relative [b] on POSIX. *)
Definition path_join (a b : string) : string :=
  if String.eqb a "" then b
  else if String.eqb (String.substring (String.length a - 1) 1 a) "/" then a +:+ b
  else a +:+ "/" +:+ b.

Definition cand_path (out_dir : string) (ts : Z) : string :=
  path_join out_dir ("cand_" +:+ pretty ts +:+ ".mid").

Section Backend.

Context {m21 : Music21} {ops : GeneticOps}.

(** [POST /generate]. [session_id] is [str(uuid.uuid4())], [out_dir] what
    [tempfile.mkdtemp] returns or raises, [ts] is [int(time.time())]. *)
Definition generate (req : GenerateRequest) (session_id : string)
    (out_dir : result string) (ts : Z) (seeds : Z -> Z) (d : Draws)
    (SESSIONS : gmap string Session) : gmap string Session * response :=
  match out_dir with
  | Raise e => (SESSIONS, HTTPException 500 (Traceback e))
  | Ok out_dir =>
      let out_path := cand_path out_dir ts in
      (* Create a new GA session state *)
      let state :=
        init_session_state (req_bars req) (req_notes_per_bar req) (req_pauses req)
          (req_key req) (req_scale req) (req_tempo req) (req_population req)
          2 (1 # 2) seeds in
      (* Generate first candidate *)
      match generate_next_candidate out_path (req_steps req) d state with
      | (_, Raise e) => (SESSIONS, HTTPException 500 (Traceback e))
      | (state, Ok candidate_id) =>
          (<[session_id := mkSession state candidate_id out_dir req]> SESSIONS,
           FileResponse out_path session_id candidate_id)
      end
  end.

(** [POST /rate]. The session dict is mutated in place, so what
    [submit_rating] and [generate_next_candidate] did to it stays in
    [SESSIONS] also when the request ends in an exception. *)
Definition rate (req : RateRequest) (ts : Z) (draw : Z) (d : Draws)
    (SESSIONS : gmap string Session) : gmap string Session * response :=
  match SESSIONS !! rate_session_id req with
  | None => (SESSIONS, HTTPException 404 (Message "Unknown session_id"))
  | Some sess =>
      if negb ((0 <=? rate_rating req) && (rate_rating req <=? 5)) then
        (SESSIONS, HTTPException 400 (Message "rating must be 0..5"))
      else
        let params := sess_params sess in
        (* Store rating + evolve state internally *)
        match submit_rating (rate_candidate_id req) (rate_rating req) draw
                            (sess_state sess) with
        | (state, Raise e) =>
            (<[rate_session_id req :=
                 mkSession state (sess_last_candidate_id sess) (sess_out_dir sess)
                           params]> SESSIONS,
             HTTPException 500 (Traceback e))
        | (state, Ok _) =>
            (* Generate next candidate *)
            let out_path := cand_path (sess_out_dir sess) ts in
            match generate_next_candidate out_path (req_steps params) d state with
            | (state, Raise e) =>
                (<[rate_session_id req :=
                     mkSession state (sess_last_candidate_id sess)
                               (sess_out_dir sess) params]> SESSIONS,
                 HTTPException 500 (Traceback e))
            | (state, Ok candidate_id) =>
                (<[rate_session_id req :=
                     mkSession state candidate_id (sess_out_dir sess) params]>
                   SESSIONS,
                 FileResponse out_path (rate_session_id req) candidate_id)
            end
        end
  end.

(** The requests a server handles, each with what the system gave it. *)
Inductive request : Type :=
| Generate (req : GenerateRequest) (session_id : string)
    (out_dir : result string) (ts : Z) (seeds : Z -> Z) (d : Draws)
| Rate (req : RateRequest) (ts : Z) (draw : Z) (d : Draws).

Definition serve (SESSIONS : gmap string Session) (r : request)
    : gmap string Session * response :=
  match r with
  | Generate req session_id out_dir ts seeds d =>
      generate req session_id out_dir ts seeds d SESSIONS
  | Rate req ts draw d => rate req ts draw d SESSIONS
  end.

(** [SESSIONS] after the requests, from the empty dict of a fresh server. *)
Definition served (requests : list request) : gmap string Session :=
  foldl (fun SESSIONS r => (serve SESSIONS r).1) ∅ requests.

End Backend.

(** The session parameters [generate] derives from a request. *)
Definition request_configuration (p : GenerateRequest)
    : Z * Z * bool * string * string * Z * Z * Z * Q :=
  (req_bars p, req_notes_per_bar p, req_pauses p, req_key p, req_scale p,
   req_tempo p, req_population p, 2, 1 # 2).

(** What a stored session always satisfies. *)
Definition session_ok {m21 : Music21} {ops : GeneticOps} (s : Session) : Prop :=
  reachable (sess_state s) /\
  is_Some (last_genome (sess_state s)) /\
  configuration (sess_state s) = request_configuration (sess_params s).

(** A request for one bar of two notes and a population of three, and the
    server after it was served. *)
Definition demo_request : GenerateRequest :=
  mkGenerateRequest "C" "major" 1 2 1 120 50 3 true.

Definition demo_requests : list request :=
  [Generate demo_request "session-1" (Ok "/tmp/musicga_1"%string) 1700000000
     (fun i => 37 * (i + 1)) demo_draws].

Definition demo_server : gmap string Session :=
  served (m21 := c4_music21) (ops := spec_ops) demo_requests.

Definition demo_stored : Session :=
  mkSession demo_session "g1_104242" "/tmp/musicga_1" demo_request.

(** music21 on the tonic C4, with a writer that always fails. *)
Definition c4_read_only : Music21 :=
  Build_Music21 c4_pitches (fun _ _ _ => Raise OSError).

(** A rating of 5 for ["session-1"], sent with a candidate id that was
    never issued. *)
Definition demo_rate_request : RateRequest :=
  mkRateRequest "session-1" "g0_000000" 5.

(** ** The candidate ids of a run *)

(** A string of decimal digits. *)
Fixpoint digits_only (s : string) : bool :=
  match s with
  | EmptyString => true
  | String a rest =>
      match Ascii.is_nat a with
      | Some _ => digits_only rest
      | None => false
      end
  end.

Section ReturnedIds.

Context {m21 : Music21} {ops : GeneticOps}.

(** The candidate ids the calls of a run returned, in order. *)
Fixpoint returned_ids (st : SessionState) (calls : list api_call) : list string :=
  match calls with
  | [] => []
  | c :: rest =>
      match c with
      | ProduceCandidate out_path steps d =>
          match (generate_next_candidate out_path steps d st).2 with
          | Ok candidate_id => [candidate_id]
          | Raise _ => []
          end
      | RecordRating _ _ _ => []
      end ++ returned_ids (session_step st c) rest
  end.

End ReturnedIds.

(** * Properties of the decoder *)


(** ** Bits *)

Lemma foldl_add_shift (acc : Z) (l : list Z) :
  foldl Z.add acc l = acc + foldl Z.add 0 l.
Proof.
  revert acc. induction l as [|x l IH]; intros acc; simpl; [lia|].
  rewrite (IH (acc + x)), (IH (0 + x)). lia.
Qed.

Lemma sum_imap_double (f g : nat -> Z -> Z) (l : list Z) :
  (forall i x, g i x = 2 * f i x) ->
  foldl Z.add 0 (imap g l) = 2 * foldl Z.add 0 (imap f l).
Proof.
  revert f g. induction l as [|x l IH]; intros f g Hfg; simpl; [done|].
  rewrite (foldl_add_shift (g 0%nat x)), (foldl_add_shift (f 0%nat x)).
  rewrite (IH (f ∘ S) (g ∘ S)) by (intros; apply Hfg).
  rewrite Hfg. lia.
Qed.

Lemma int_from_bits_nil : int_from_bits [] = 0.
Proof. reflexivity. Qed.

Lemma int_from_bits_cons (bit : Z) (bits : list Z) :
  int_from_bits (bit :: bits) = bit + 2 * int_from_bits bits.
Proof.
  unfold int_from_bits. simpl. rewrite foldl_add_shift.
  rewrite (sum_imap_double (fun index b => b * 2 ^ Z.of_nat index)).
  - lia.
  - intros i x. unfold compose. rewrite Nat2Z.inj_succ, Z.pow_succ_r by lia. lia.
Qed.

Lemma int_from_bits_zeros (k : nat) : int_from_bits (replicate k 0) = 0.
Proof.
  induction k as [|k IH]; simpl; [done|].
  rewrite int_from_bits_cons, IH. done.
Qed.

Lemma int_from_bits_take_padded (n k : nat) (l : list Z) :
  int_from_bits (take n (l ++ replicate k 0)) = int_from_bits (take n l).
Proof.
  revert n. induction l as [|x l IH]; intros n; simpl.
  - rewrite take_replicate, int_from_bits_zeros. by destruct n.
  - destruct n as [|n]; simpl; [done|].
    by rewrite !int_from_bits_cons, IH.
Qed.

Lemma int_from_bits_slice_padded (k : nat) (l : list Z) (lo hi : Z) :
  int_from_bits (slice (l ++ replicate k 0) lo hi) = int_from_bits (slice l lo hi).
Proof.
  unfold slice. rewrite drop_app, drop_replicate.
  apply int_from_bits_take_padded.
Qed.

(** ** The chunk loop *)

Lemma decode_chunk_same_integer pauses nl m c1 c2 :
  int_from_bits c1 = int_from_bits c2 ->
  decode_chunk pauses nl m c1 = decode_chunk pauses nl m c2.
Proof. intros H. unfold decode_chunk. by rewrite H. Qed.

Lemma foldl_decode_same_integers {A} pauses nl (f g : A -> list Z) (l : list A) m :
  (forall x, int_from_bits (f x) = int_from_bits (g x)) ->
  foldl (decode_chunk pauses nl) m (map f l) = foldl (decode_chunk pauses nl) m (map g l).
Proof.
  intros Hfg. revert m. induction l as [|x l IH]; intros m; simpl; [done|].
  rewrite (decode_chunk_same_integer _ _ _ (f x) (g x)) by apply Hfg. apply IH.
Qed.

Lemma decode_chunks_padded pauses nl genome k num_bars num_notes :
  decode_chunks pauses nl (chunks_of (genome ++ replicate k 0) num_bars num_notes)
  = decode_chunks pauses nl (chunks_of genome num_bars num_notes).
Proof.
  unfold decode_chunks, chunks_of. apply foldl_decode_same_integers.
  intros i. apply int_from_bits_slice_padded.
Qed.

Lemma foldl_decode_invariant (P : Melody -> Prop) pauses nl chunks m :
  P m ->
  (forall m' c, P m' -> P (decode_chunk pauses nl m' c)) ->
  P (foldl (decode_chunk pauses nl) m chunks).
Proof.
  intros Hm Hstep. revert m Hm.
  induction chunks as [|c chunks IH]; intros m Hm; simpl; auto.
Qed.

Lemma length_add_to_last xs d : length (add_to_last xs d) = length xs.
Proof. unfold add_to_last. destruct (last xs); [apply length_insert|done]. Qed.

Lemma decode_aligned pauses nl chunks :
  aligned (decode_chunks pauses nl chunks).
Proof.
  unfold decode_chunks. apply (foldl_decode_invariant aligned); [done|].
  intros m c [Hv Hb]. unfold decode_chunk, aligned.
  repeat case_match; simpl; rewrite ?length_app, ?length_add_to_last; simpl; lia.
Qed.

(** ** Step expansion *)



Lemma for_each_map {A B} (f : A -> result B) (g : A -> B) xs :
  Forall (fun x => f x = Ok (g x)) xs -> for_each f xs = Ok (map g xs).
Proof.
  induction 1 as [|x xs Hx _ IH]; simpl; [done|].
  rewrite Hx. simpl. rewrite IH. done.
Qed.

Lemma for_each_total {A B} (f : A -> result B) xs :
  (forall x, exists y, f x = Ok y) -> exists ys, for_each f xs = Ok ys.
Proof.
  intros Hf. induction xs as [|x xs [ys IH]]; simpl; [by eexists|].
  destruct (Hf x) as [y Hy]. rewrite Hy, IH. simpl. by eexists.
Qed.

Lemma step_pitch_rest sp step : step_pitch sp step 0 = Ok 0.
Proof. reflexivity. Qed.

Lemma step_pitch_sounding sp step v :
  v <> 0 -> sp <> [] ->
  exists midi,
    sp !! Z.to_nat ((v + step * 2) `mod` Z.of_nat (length sp)) = Some midi /\
    step_pitch sp step v = Ok midi.
Proof.
  intros Hv Hsp. unfold step_pitch.
  destruct (Z.eqb_spec v 0) as [|_]; [done|].
  assert (0 < Z.of_nat (length sp)) as Hlen by (destruct sp; simpl in *; [done|lia]).
  destruct (Z.eqb_spec (Z.of_nat (length sp)) 0) as [|_]; [lia|].
  pose proof (Z.mod_pos_bound (v + step * 2) _ Hlen) as Hidx.
  destruct (lookup_lt_is_Some_2 sp (Z.to_nat ((v + step * 2) `mod` Z.of_nat (length sp))))
    as [midi Hmidi]; [lia|].
  exists midi. by rewrite Hmidi.
Qed.

Lemma step_pitch_total sp step v : sp <> [] -> exists y, step_pitch sp step v = Ok y.
Proof.
  intros Hsp. destruct (decide (v = 0)) as [->|Hv]; [by exists 0|].
  destruct (step_pitch_sounding sp step v Hv Hsp) as (midi & _ & H). by exists midi.
Qed.

Lemma expand_steps_total sp num_steps ns :
  sp <> [] -> exists steps, expand_steps sp num_steps ns = Ok steps.
Proof.
  intros Hsp. unfold expand_steps. apply for_each_total.
  intros step. apply for_each_total. intros v. by apply step_pitch_total.
Qed.

Lemma expand_steps_rests sp num_steps (n : nat) :
  expand_steps sp num_steps (replicate n 0)
  = Ok (replicate (Z.to_nat num_steps) (replicate n 0)).
Proof.
  unfold expand_steps.
  rewrite (for_each_map _ (fun _ => replicate n 0)).
  - f_equal. unfold range. 
    assert (forall (l : list Z), map (fun _ => replicate n 0) l = replicate (length l) (replicate n 0)) as ->.
    { induction l; simpl; congruence. }
    by rewrite length_seqZ.
  - apply Forall_forall. intros step _.
    rewrite (for_each_map _ (fun _ => 0)).
    + f_equal. induction n; simpl; congruence.
    + apply Forall_forall. intros v Hv. apply elem_of_replicate in Hv as [-> _]. done.
Qed.

(** X1. With a scale that has pitches, step expansion returns, in step
    [s], the pitch [scale_pitches[(v + s*2) mod len(scale_pitches)]] for
    every entry [v] other than 0, and 0 for every entry that is 0. *)
Theorem expand_steps_pitches (scale_pitches : list Z) (num_steps : Z)
    (melody_notes : list Z) :
  scale_pitches <> [] ->
  expand_steps scale_pitches num_steps melody_notes
  = Ok (map (fun s =>
         map (fun v =>
           if v =? 0 then 0
           else default 0 (scale_pitches !!
                  Z.to_nat ((v + s * 2) `mod` Z.of_nat (length scale_pitches))))
           melody_notes)
        (range num_steps)).
Proof.
  intros Hsp. unfold expand_steps.
  apply for_each_map, Forall_forall. intros s _.
  apply for_each_map, Forall_forall. intros v _.
  destruct (Z.eqb_spec v 0) as [->|Hv]; [done|].
  destruct (step_pitch_sounding scale_pitches s v Hv Hsp) as (midi & Hmidi & ->).
  by rewrite Hmidi.
Qed.

Lemma expand_steps_pitches_witness :
  [60; 62; 64; 65; 67; 69; 71; 72] <> [] /\
  expand_steps [60; 62; 64; 65; 67; 69; 71; 72] 2 [2; 0; 7]
  = Ok [[64; 0; 72]; [67; 0; 62]].
Proof.
  split; [discriminate|].
  apply (expand_steps_pitches [60; 62; 64; 65; 67; 69; 71; 72] 2 [2; 0; 7]).
  discriminate.
Defined.

Section DecoderFacts.

Context {m21 : Music21}.

Lemma resolve_pitches_nonempty key scale_name :
  getPitches (MajorScale key) <> [] -> resolve_pitches key scale_name <> [].
Proof.
  intros Hmaj. unfold resolve_pitches. by destruct (getPitches (_build_scale _ _)).
Qed.

End DecoderFacts.

(** ** Chunks that are rests *)

Lemma decode_chunk_rest nl m c :
  8 <= int_from_bits c ->
  decode_chunk true nl m c
  = mkMelody (notes m ++ [0]) (velocity m ++ [0]) (beat m ++ [nl]).
Proof.
  intros H. unfold decode_chunk, BITS_PER_NOTE. change (2 ^ (4 - 1)) with 8.
  destruct (Z.leb_spec 8 (int_from_bits c)); [done|lia].
Qed.

Lemma decode_all_rests nl chunks m :
  Forall (fun c => 8 <= int_from_bits c) chunks ->
  foldl (decode_chunk true nl) m chunks
  = mkMelody (notes m ++ replicate (length chunks) 0)
             (velocity m ++ replicate (length chunks) 0)
             (beat m ++ replicate (length chunks) nl).
Proof.
  intros H. revert m. induction H as [|c chunks Hc _ IH]; intros m; simpl.
  - rewrite !app_nil_r. by destruct m.
  - rewrite decode_chunk_rest by done. rewrite IH. simpl.
    by rewrite <- !app_assoc.
Qed.

Lemma high_bit_chunk (c : list Z) :
  (length c <= 4)%nat -> Forall is_bit c -> c !! 3%nat = Some 1 -> 8 <= int_from_bits c.
Proof.
  intros Hlen Hbits H3.
  destruct c as [|b0 [|b1 [|b2 [|b3 [|? ?]]]]]; simplify_eq/=; try lia.
  rewrite !int_from_bits_cons, int_from_bits_nil.
  repeat match goal with H : Forall _ (_ :: _) |- _ => inversion H; clear H; subst end.
  unfold is_bit in *. lia.
Qed.

Lemma chunks_of_short genome num_bars num_notes :
  Forall (fun c => (length c <= 4)%nat) (chunks_of genome num_bars num_notes).
Proof.
  unfold chunks_of. apply Forall_map, Forall_forall. intros i _. simpl.
  unfold slice, BITS_PER_NOTE. rewrite length_take. lia.
Qed.

Lemma chunks_of_bits genome num_bars num_notes :
  Forall is_bit genome ->
  Forall (Forall is_bit) (chunks_of genome num_bars num_notes).
Proof.
  intros H. unfold chunks_of. apply Forall_map, Forall_forall. intros i _. simpl.
  unfold slice. by apply Forall_take, Forall_drop.
Qed.

Lemma length_chunks_of genome num_bars num_notes :
  length (chunks_of genome num_bars num_notes) = Z.to_nat (num_bars * num_notes).
Proof. unfold chunks_of, range. by rewrite length_map, length_seqZ. Qed.

Lemma sum_replicate (n : nat) (x : Q) :
  (foldr Qplus 0 (replicate n x) == inject_Z (Z.of_nat n) * x)%Q.
Proof.
  induction n as [|n IH].
  - simpl. ring.
  - rewrite Nat2Z.inj_succ. unfold Z.succ. rewrite inject_Z_plus.
    simpl. rewrite IH. ring.
Qed.

(** C9. A genome of full length whose every chunk has its high bit set,
    decoded with pauses allowed, gives one rest per chunk and nothing else:
    every step is all rests, every velocity is 0, every duration is
    [4 / num_notes], and the durations add up to
    [num_bars * num_notes * (4 / num_notes)]. *)
Theorem all_rests_when_every_high_bit_set
    {m21 : Music21} (genome : Genome)
    (num_bars num_notes num_steps : Z) (key scale_name : string) (root : Z) :
  0 < num_notes ->
  Z.of_nat (length genome) = num_bars * num_notes * BITS_PER_NOTE ->
  Forall is_bit genome ->
  Forall (fun c => c !! 3%nat = Some 1) (chunks_of genome num_bars num_notes) ->
  exists m,
    genome_to_melody genome num_bars num_notes num_steps true
                     key scale_name root = Ok m /\
    let n := Z.to_nat (num_bars * num_notes) in
    step_notes m = replicate (Z.to_nat num_steps) (replicate n 0) /\
    step_velocity m = replicate n 0 /\
    step_beat m = replicate n (4 / inject_Z num_notes)%Q /\
    (total_duration m
     == inject_Z (num_bars * num_notes) * (4 / inject_Z num_notes))%Q.
Proof.
  intros Hnotes Hlen Hbits Hhigh.
  assert (0 <= num_bars * num_notes) as Hn by (unfold BITS_PER_NOTE in Hlen; lia).
  unfold genome_to_melody, note_length_of.
  destruct (Z.eqb_spec num_notes 0) as [|_]; [lia|]. simpl.
  unfold decode_chunks. rewrite decode_all_rests; last first.
  { pose proof (chunks_of_short genome num_bars num_notes) as Hs.
    pose proof (chunks_of_bits genome num_bars num_notes Hbits) as Hb.
    revert Hs Hb Hhigh. generalize (chunks_of genome num_bars num_notes).
    intros cs. rewrite !Forall_forall. intros Hs Hb Hh c Hc.
    apply high_bit_chunk; auto. }
  rewrite length_chunks_of. simpl.
  rewrite expand_steps_rests. simpl.
  eexists. split; [reflexivity|]. simpl. repeat split.
  unfold total_duration. simpl. rewrite sum_replicate.
  by rewrite Z2Nat.id.
Qed.

Lemma all_rests_when_every_high_bit_set_witness :
  (0 < 2 /\
   Z.of_nat (length [0; 0; 0; 1; 1; 0; 1; 1]) = 1 * 2 * BITS_PER_NOTE /\
   Forall is_bit [0; 0; 0; 1; 1; 0; 1; 1] /\
   Forall (fun c => c !! 3%nat = Some 1) (chunks_of [0; 0; 0; 1; 1; 0; 1; 1] 1 2)) /\
  exists m,
    genome_to_melody (m21 := c4_music21) [0; 0; 0; 1; 1; 0; 1; 1] 1 2 3 true "C" "major" 0 = Ok m /\
    step_notes m = [[0; 0]; [0; 0]; [0; 0]] /\
    step_velocity m = [0; 0] /\
    step_beat m = [(4 / 2)%Q; (4 / 2)%Q] /\
    (total_duration m == 4)%Q.
Proof.
  assert (Forall is_bit [0; 0; 0; 1; 1; 0; 1; 1]) as Hbits
    by (repeat constructor; unfold is_bit; lia).
  assert (Forall (fun c => c !! 3%nat = Some 1) (chunks_of [0; 0; 0; 1; 1; 0; 1; 1] 1 2))
    as Hhigh by (repeat constructor).
  split; [split_and!; done|].
  destruct (all_rests_when_every_high_bit_set (m21 := c4_music21)
              [0; 0; 0; 1; 1; 0; 1; 1] 1 2 3 "C" "major" 0 ltac:(lia) eq_refl Hbits Hhigh)
    as (m & Hm & Hn & Hv & Hb & Ht).
  exists m. repeat split; try done. by rewrite Ht.
Defined.

(** ** Short genomes *)

(** C5, as the code has it. With [num_notes <> 0] and a major scale that has
    pitches, decoding never raises, whatever the length of the genome; and
    the bits a short genome lacks read as 0: padding the genome with any
    number of 0 bits gives the same decoded melody. *)
Theorem short_genome_decodes_as_zero_padded
    {m21 : Music21} (genome : Genome)
    (num_bars num_notes num_steps : Z) (pauses : bool)
    (key scale_name : string) (root : Z) :
  num_notes <> 0 ->
  getPitches (MajorScale key) <> [] ->
  exists m,
    genome_to_melody genome num_bars num_notes num_steps pauses
                     key scale_name root = Ok m /\
    forall k : nat,
      genome_to_melody (genome ++ replicate k 0) num_bars num_notes
                       num_steps pauses key scale_name root = Ok m.
Proof.
  intros Hnotes Hmajor. unfold genome_to_melody, note_length_of.
  destruct (Z.eqb_spec num_notes 0) as [|_]; [done|]. simpl.
  destruct (expand_steps_total (resolve_pitches key scale_name) num_steps
              (notes (decode_chunks pauses (4 / inject_Z num_notes)
                        (chunks_of genome num_bars num_notes))))
    as [steps Hsteps]; [by apply resolve_pitches_nonempty|].
  eexists. split.
  - rewrite Hsteps. reflexivity.
  - intros k. rewrite decode_chunks_padded, Hsteps. reflexivity.
Qed.

Lemma short_genome_decodes_as_zero_padded_witness :
  (2 <> 0 /\ getPitches (Music21 := c4_music21) (MajorScale "C") <> []) /\
  exists m,
    genome_to_melody (m21 := c4_music21) [1; 0; 1] 1 2 1 true "C" "major" 0 = Ok m /\
    forall k : nat,
      genome_to_melody (m21 := c4_music21) ([1; 0; 1] ++ replicate k 0) 1 2 1 true
                       "C" "major" 0 = Ok m.
Proof.
  split; [split; [lia|discriminate]|].
  apply (short_genome_decodes_as_zero_padded (m21 := c4_music21) [1; 0; 1] 1 2 1 true
           "C" "major" 0); [lia|discriminate].
Defined.

(** C5, as the claim has it, fails: one bit where four are required is
    decoded, as scale degree 1, and nothing is raised. *)
Lemma short_genome_is_decoded :
  Z.of_nat (length [1]) < 1 * 1 * BITS_PER_NOTE /\
  genome_to_melody (m21 := c4_music21) [1] 1 1 1 true "C" "major" 0
  = Ok (mkStepMelody [[62]] [127] [(4 / 1)%Q]).
Proof. split; [done|reflexivity]. Qed.

(** ** Scale degree 0 and the rest value *)

(** A chunk of value 0 extends whatever entry has 0 in ["notes"], a rest
    included. *)
Lemma decode_chunk_zero_extends pauses nl m c :
  int_from_bits c = 0 -> last (notes m) = Some 0 ->
  decode_chunk pauses nl m c
  = mkMelody (notes m) (velocity m) (add_to_last (beat m) nl).
Proof.
  intros Hc Hlast.
  assert (0 < length (notes m))%nat as Hlen
    by (destruct (notes m); [done|simpl; lia]).
  unfold decode_chunk. rewrite Hc.
  replace (if pauses then 0 else 0 `mod` 2 ^ (BITS_PER_NOTE - 1)) with 0
    by (by destruct pauses).
  change (2 ^ (BITS_PER_NOTE - 1) <=? 0) with false. cbv iota.
  rewrite (bool_decide_true _ Hlen), (bool_decide_true _ Hlast). done.
Qed.

(** Without pauses the rest branch is never taken: every entry is
    recorded with velocity 127. *)
Lemma decode_without_pauses_velocity nl chunks :
  Forall (fun v => v = 127) (velocity (decode_chunks false nl chunks)).
Proof.
  unfold decode_chunks.
  apply (foldl_decode_invariant (fun m => Forall (fun v => v = 127) (velocity m)));
    [by constructor|].
  intros m c Hm. unfold decode_chunk, BITS_PER_NOTE. change (2 ^ (4 - 1)) with 8.
  pose proof (Z.mod_pos_bound (int_from_bits c) 8 eq_refl).
  destruct (Z.leb_spec 8 (int_from_bits c `mod` 8)); [lia|].
  case_match; simpl; [done|].
  apply Forall_app. split; [done|by repeat constructor].
Qed.

(** X2. Decoded with [pauses = false], every recorded entry is a sounded
    one: its velocity is 127 and its scale degree lies in [[0, 7]]. *)
Theorem without_pauses_every_entry_is_sounded (nl : Q) (genome : Genome)
    (num_bars num_notes : Z) :
  Forall (fun v => v = 127)
         (velocity (decode_chunks false nl (chunks_of genome num_bars num_notes))) /\
  Forall (fun v => 0 <= v < 8)
         (notes (decode_chunks false nl (chunks_of genome num_bars num_notes))).
Proof.
  split; [apply decode_without_pauses_velocity|].
  unfold decode_chunks.
  apply (foldl_decode_invariant (fun m => Forall (fun v => 0 <= v < 8) (notes m)));
    [by constructor|].
  intros m c Hm. unfold decode_chunk, BITS_PER_NOTE. change (2 ^ (4 - 1)) with 8.
  pose proof (Z.mod_pos_bound (int_from_bits c) 8 eq_refl).
  destruct (Z.leb_spec 8 (int_from_bits c `mod` 8)); [lia|].
  case_match; simpl; [done|].
  apply Forall_app. split; [done|]. constructor; [lia|constructor].
Qed.

Lemma foldl_decode_length pauses nl chunks m :
  (length (notes (foldl (decode_chunk pauses nl) m chunks))
   <= length (notes m) + length chunks)%nat.
Proof.
  revert m. induction chunks as [|c chunks IH]; intros m; simpl; [lia|].
  etrans; [apply IH|].
  unfold decode_chunk. repeat case_match; simpl; rewrite ?length_app; simpl; lia.
Qed.

(** X3. The three lists of the decoded melody have one length, at most
    [num_bars * num_notes]. *)
Theorem decoded_melody_shape (pauses : bool) (nl : Q) (genome : Genome)
    (num_bars num_notes : Z) :
  aligned (decode_chunks pauses nl (chunks_of genome num_bars num_notes)) /\
  (length (notes (decode_chunks pauses nl (chunks_of genome num_bars num_notes)))
   <= Z.to_nat (num_bars * num_notes))%nat.
Proof.
  split; [apply decode_aligned|].
  unfold decode_chunks.
  etrans; [apply foldl_decode_length|]. simpl. by rewrite length_chunks_of.
Qed.

(** C2, at scale degree 0. The tonic is decoded as a sounded entry
    (velocity 127), and step expansion turns it into 0, the rest value,
    for every scale and every step, where the first pitch of the scale,
    60, is due. *)
Theorem tonic_expands_to_the_rest_value :
  (forall scale_pitches step, step_pitch scale_pitches step 0 = Ok 0) /\
  resolve_pitches (m21 := c4_music21) "C" "major" !! 0%nat = Some 60 /\
  genome_to_melody (m21 := c4_music21) [0; 0; 0; 0] 1 1 1 true "C" "major" 0
  = Ok (mkStepMelody [[0]] [127] [(4 / 1)%Q]).
Proof. repeat split. Qed.

(** C3, at a rest followed by scale degree 0. The second chunk adds no
    entry: it extends the duration of the rest before it. *)
Theorem tonic_after_rest_extends_the_rest :
  int_from_bits [0; 0; 0; 1] = 8 /\ int_from_bits [0; 0; 0; 0] = 0 /\
  genome_to_melody (m21 := c4_music21) [0; 0; 0; 1; 0; 0; 0; 0] 1 2 1 true "C" "major" 0
  = Ok (mkStepMelody [[0]] [0] [(4 / 2 + 4 / 2)%Q]).
Proof. repeat split. Qed.

(** C4, at a chunk of value 0 or 8. With [pauses = false] the chunk is
    recorded with velocity 127, and the step it expands to holds 0, the
    rest value. *)
Theorem tonic_without_pauses_is_the_rest_value :
  genome_to_melody (m21 := c4_music21) [0; 0; 0; 0] 1 1 1 false "C" "major" 0
  = Ok (mkStepMelody [[0]] [127] [(4 / 1)%Q]) /\
  genome_to_melody (m21 := c4_music21) [0; 0; 0; 1] 1 1 1 false "C" "major" 0
  = Ok (mkStepMelody [[0]] [127] [(4 / 1)%Q]) /\
  genome_to_melody (m21 := c4_music21) [1; 1; 1; 1] 1 1 1 false "C" "major" 0
  = Ok (mkStepMelody [[72]] [127] [(4 / 1)%Q]).
Proof. repeat split. Qed.

(** The scenario of one bar of four notes, chunks 0, 0, 8, 2: the second
    chunk extends the first, the third is a rest, the fourth is degree 2.
    The first entry, degree 0, is 0 in the step. *)
Example decode_scenario :
  genome_to_melody (m21 := c4_music21)
    [0; 0; 0; 0;  0; 0; 0; 0;  0; 0; 0; 1;  0; 1; 0; 0] 1 4 1 true "C" "major" 0
  = Ok (mkStepMelody [[0; 0; 64]] [127; 0; 127]
          [(4 / 4 + 4 / 4)%Q; (4 / 4)%Q; (4 / 4)%Q]).
Proof. reflexivity. Qed.

(** * Properties of the session *)


Lemma randrange_ok n draw idx :
  randrange n draw = Ok idx -> 0 <= idx < n.
Proof.
  unfold randrange. destruct (Z.leb_spec n 0); [done|].
  intros [= <-]. apply Z.mod_pos_bound. lia.
Qed.

Lemma submit_rating_unset candidate_id rating draw st :
  last_genome st = None ->
  submit_rating candidate_id rating draw st = (st, Ok tt).
Proof.
  intros H. unfold submit_rating, mbind, sess_bind, read. simpl. by rewrite H.
Qed.

Lemma submit_rating_low candidate_id rating draw st g :
  last_genome st = Some g -> Z.max 0 (Z.min 5 rating) < 4 ->
  submit_rating candidate_id rating draw st
  = (set_ratings (ratings st ++ [(g, Z.max 0 (Z.min 5 rating))]) st, Ok tt).
Proof.
  intros H Hr. unfold submit_rating, mbind, sess_bind, read, update. simpl.
  rewrite H. 
  by destruct (Z.leb_spec 4 (Z.max 0 (Z.min 5 rating))); [lia|].
Qed.

Lemma submit_rating_high candidate_id rating draw st g :
  last_genome st = Some g -> 4 <= Z.max 0 (Z.min 5 rating) ->
  population st <> [] ->
  let idx := Z.to_nat (draw `mod` Z.of_nat (length (population st))) in
  (idx < length (population st))%nat /\
  submit_rating candidate_id rating draw st
  = (set_population (<[idx := g]> (population st))
       (set_ratings (ratings st ++ [(g, Z.max 0 (Z.min 5 rating))]) st), Ok tt).
Proof.
  intros H Hr Hpop.
  assert (0 < Z.of_nat (length (population st))) as Hlen
    by (destruct (population st); simpl in *; [done|lia]).
  split.
  { pose proof (Z.mod_pos_bound draw _ Hlen). lia. }
  unfold submit_rating, mbind, sess_bind, read, update, call. simpl.
  rewrite H. 
  destruct (Z.leb_spec 4 (Z.max 0 (Z.min 5 rating))); [|lia]. simpl.
  unfold randrange. by destruct (Z.leb_spec (Z.of_nat (length (population st))) 0); [lia|].
Qed.

Lemma submit_rating_population_length candidate_id rating draw st :
  length (population (submit_rating candidate_id rating draw st).1)
  = length (population st).
Proof.
  unfold submit_rating, mbind, sess_bind, read, update, call. simpl.
  destruct (last_genome st) as [g|]; simpl; [|done].
  destruct (4 <=? _); simpl; [|done].
  destruct (randrange _ _); simpl; [|done].
  apply length_insert.
Qed.

Section SessionFacts.

Context {m21 : Music21} {ops : GeneticOps}.

Lemma generate_next_candidate_cases out_path steps d st :
  let out := generate_next_candidate out_path steps d st in
  (out.1 = set_generation (generation st + 1) st /\ exists e, out.2 = Raise e)
  \/ (exists child idx cid,
        (idx < length (population st))%nat /\ out.1 = produced st child idx cid /\
        (out.2 = Ok cid \/ exists e, out.2 = Raise e)).
Proof.
  unfold generate_next_candidate.
  unfold mbind, sess_bind, update, read, call, mret, sess_ret. simpl.
  destruct (except_TypeError (selection_pair _ _ _) _) as [parents|e]; [|left; eauto].
  destruct (except_TypeError _ _) as [child|e]; [|left; eauto].
  destruct (mutation _ _ _ _) as [child'|e]; [|left; eauto].
  destruct (randrange _ _) as [idx|e] eqn:Hidx; [|left; eauto].
  apply randrange_ok in Hidx.
  right. exists child', (Z.to_nat idx). eexists. split; [lia|].
  destruct (save_genome_to_midi _ _ _ _ _ _ _ _ _ _); simpl; eauto.
Qed.

Lemma generate_next_candidate_population_length out_path steps d st :
  length (population (generate_next_candidate out_path steps d st).1)
  = length (population st).
Proof.
  destruct (generate_next_candidate_cases out_path steps d st)
    as [[-> _]|(child & idx & cid & _ & -> & _)]; simpl; [done|].
  apply length_insert.
Qed.


Lemma session_step_population_length st c :
  length (population (session_step st c)) = length (population st).
Proof.
  destruct c; simpl.
  - apply generate_next_candidate_population_length.
  - apply submit_rating_population_length.
Qed.

Lemma run_population_length calls st :
  length (population (run st calls)) = length (population st).
Proof.
  unfold run. revert st.
  induction calls as [|c calls IH]; intros st; simpl; [done|].
  rewrite IH. apply session_step_population_length.
Qed.

Lemma reachable_last_genome_population st :
  reachable st -> last_genome st <> None -> population st <> [].
Proof.
  induction 1 as [|st c _ IH]; [done|].
  destruct c as [out_path steps d|candidate_id rating draw]; simpl.
  - destruct (generate_next_candidate_cases out_path steps d st)
      as [[-> _]|(child & idx & cid & Hidx & -> & _)]; simpl; [done|].
    intros _ Hnil. apply (f_equal length) in Hnil.
    rewrite length_insert in Hnil. simpl in Hnil. lia.
  - intros Hlast Hnil. apply (f_equal length) in Hnil.
    rewrite submit_rating_population_length in Hnil.
    destruct (last_genome st) as [g|] eqn:Hg.
    + apply IH; [done|]. by destruct (population st).
    + by rewrite submit_rating_unset in Hlast.
Qed.


Lemma init_population_length num_bars num_notes pauses key scale bpm
    population_size num_mutations mutation_prob seeds :
  length (population (init_session_state num_bars num_notes pauses key scale bpm
                        population_size num_mutations mutation_prob seeds))
  = Z.to_nat population_size.
Proof. simpl. unfold range. by rewrite length_map, length_seqZ. Qed.

(** C6. A session created with [population_size] holds
    [max 0 population_size] genomes, and still does after any calls of
    [generate_next_candidate] and [submit_rating], whether they return or
    raise; each single call leaves the number of genomes as it was. *)
Theorem population_size_invariant num_bars num_notes pauses key scale bpm
    population_size num_mutations mutation_prob seeds calls :
  Z.of_nat (length (population
    (run (init_session_state num_bars num_notes pauses key scale bpm population_size
                     num_mutations mutation_prob seeds) calls)))
  = Z.max 0 population_size
  /\ forall st c, length (population (session_step st c)) = length (population st).
Proof.
  split; [|apply session_step_population_length].
  rewrite run_population_length, init_population_length. lia.
Qed.

(** C7. In a session whose last genome is [g], [submit_rating] clamps the
    rating into [[0, 5]], returns normally and appends [(g, clamped)] to the
    rating history; when the clamped rating is at least 4 it overwrites the
    slot [randrange] draws with [g], any slot being drawn by some draw, and
    when it is below 4 the population is left as it was. *)
Theorem submit_rating_records_and_keeps_elite st g candidate_id rating draw :
  reachable st ->
  last_genome st = Some g ->
  let r := Z.max 0 (Z.min 5 rating) in
  let out := submit_rating candidate_id rating draw st in
  0 <= r <= 5 /\
  (0 <= rating <= 5 -> r = rating) /\
  out.2 = Ok tt /\
  ratings out.1 = ratings st ++ [(g, r)] /\
  (4 <= r ->
     exists idx, (idx < length (population st))%nat /\
       population out.1 = <[idx := g]> (population st)) /\
  (r < 4 -> population out.1 = population st) /\
  (4 <= r ->
     forall idx, (idx < length (population st))%nat ->
       population (submit_rating candidate_id rating (Z.of_nat idx) st).1
       = <[idx := g]> (population st)).
Proof.
  intros Hreach Hg r out.
  assert (population st <> []) as Hpop
    by (apply reachable_last_genome_population; [done|by rewrite Hg]).
  split; [lia|]. split; [lia|].
  destruct (Z.lt_ge_cases r 4) as [Hlow|Hhigh].
  - subst out. rewrite (submit_rating_low _ _ _ _ g) by done. simpl.
    repeat split; try done; lia.
  - destruct (submit_rating_high candidate_id rating draw st g Hg Hhigh Hpop)
      as [Hidx Hout].
    subst out. rewrite Hout. simpl.
    repeat split; try done; try lia.
    + intros _. eexists. split; [exact Hidx|done].
    + intros _ idx Hlt.
      destruct (submit_rating_high candidate_id rating (Z.of_nat idx) st g Hg Hhigh Hpop)
        as [_ ->]. simpl.
      by rewrite Z.mod_small, Nat2Z.id by lia.
Qed.

(** X4. When [generate_next_candidate] returns a candidate id, the dict
    holds that id as the last candidate id, the candidate as the last
    genome and as a member of the population, a generation counter one
    higher, and the rating history it had. *)
Theorem returned_candidate_is_in_population out_path steps d st st' cid :
  generate_next_candidate out_path steps d st = (st', Ok cid) ->
  exists child,
    last_genome st' = Some child /\
    child ∈ population st' /\
    last_candidate_id st' = Some cid /\
    generation st' = generation st + 1 /\
    ratings st' = ratings st.
Proof.
  intros Hout.
  destruct (generate_next_candidate_cases out_path steps d st)
    as [[_ [e He]]|(child & idx & cid' & Hidx & Hst & Hres)];
    rewrite Hout in *; simpl in *; [done|].
  destruct Hres as [[= <-]|[e [=]]]. subst st'.
  exists child. simpl. split_and!; try done.
  apply list_elem_of_lookup. exists idx. by apply list_lookup_insert_eq.
Qed.

End SessionFacts.

(** ** The candidate id of a rating *)

(** C1, as the code has it. [submit_rating] never reads its
    [candidate_id]: any two ids give the same dict and the same outcome.
    With no last genome the call changes nothing; with a last genome [g]
    the clamped rating is appended for [g], whatever id was passed. *)
Theorem submit_rating_ignores_candidate_id
    (st : SessionState) (candidate_id other_id : string) (rating draw : Z) :
  submit_rating candidate_id rating draw st = submit_rating other_id rating draw st
  /\ match last_genome st with
     | None => submit_rating candidate_id rating draw st = (st, Ok tt)
     | Some g =>
         ratings (submit_rating candidate_id rating draw st).1
         = ratings st ++ [(g, Z.max 0 (Z.min 5 rating))]
     end.
Proof.
  split; [reflexivity|].
  destruct (last_genome st) as [g|] eqn:Hg.
  - unfold submit_rating, mbind, sess_bind, read, update, call. simpl.
    rewrite Hg. destruct (4 <=? _); simpl; [|done].
    by destruct (randrange _ _).
  - by apply submit_rating_unset.
Qed.

(** C1, as the claim has it, fails: a rating of 5 sent with an id that is
    not the last candidate's is appended to the history and overwrites a
    slot of the population. *)
Lemma stale_candidate_id_is_recorded :
  ~ (forall st candidate_id rating draw,
       last_candidate_id st <> Some candidate_id ->
       ratings (submit_rating candidate_id rating draw st).1 = ratings st /\
       population (submit_rating candidate_id rating draw st).1 = population st).
Proof.
  intros H.
  destruct (H demo_session "g0_999999"%string 5 0) as [Hr _]; [discriminate|].
  discriminate Hr.
Qed.

(** ** Duplicate genomes in the history *)

Lemma fitness_scan_first_match (earlier rest : list (Genome * Z)) (g : Genome) (r : Z) :
  Forall (fun record => record.1 <> g) earlier ->
  fitness_scan (earlier ++ (g, r) :: rest) g = r.
Proof.
  induction 1 as [|[g' r'] records Hne _ IH]; simpl.
  - by rewrite bool_decide_true.
  - simpl in Hne. by rewrite bool_decide_false.
Qed.

(** C10. When the history holds several records of a genome, the lookup
    returns the rating of the earliest one, and records appended later do
    not change it. *)
Theorem fitness_lookup_first_match_wins
    (st st' : SessionState) (earlier later more : list (Genome * Z))
    (g : Genome) (r : Z) :
  Forall (fun record => record.1 <> g) earlier ->
  ratings st = earlier ++ (g, r) :: later ->
  ratings st' = ratings st ++ more ->
  _fitness_lookup_from_ratings st g = r /\
  _fitness_lookup_from_ratings st' g = r.
Proof.
  intros Hearlier Hst Hst'. unfold _fitness_lookup_from_ratings.
  rewrite Hst', Hst, <- app_assoc. simpl.
  by rewrite !fitness_scan_first_match.
Qed.

Lemma fitness_lookup_first_match_wins_witness :
  (Forall (fun record : Genome * Z => record.1 <> [1; 0; 0; 1; 0; 0; 1; 0])
          [([0; 0; 0; 1; 0; 0; 1; 0], 3)] /\
   ratings rated_session
   = [([0; 0; 0; 1; 0; 0; 1; 0], 3)] ++ ([1; 0; 0; 1; 0; 0; 1; 0], 2) :: [] /\
   ratings rerated_session
   = ratings rated_session ++ [([1; 0; 0; 1; 0; 0; 1; 0], 5)]) /\
  _fitness_lookup_from_ratings rated_session [1; 0; 0; 1; 0; 0; 1; 0] = 2 /\
  _fitness_lookup_from_ratings rerated_session [1; 0; 0; 1; 0; 0; 1; 0] = 2.
Proof.
  assert (Forall (fun record : Genome * Z => record.1 <> [1; 0; 0; 1; 0; 0; 1; 0])
                 [([0; 0; 0; 1; 0; 0; 1; 0], 3)]) as Hearlier
    by (repeat constructor; discriminate).
  split; [split_and!; [exact Hearlier|reflexivity|reflexivity]|].
  apply (fitness_lookup_first_match_wins rated_session rerated_session
           [([0; 0; 0; 1; 0; 0; 1; 0], 3)] [] [([1; 0; 0; 1; 0; 0; 1; 0], 5)]
           [1; 0; 0; 1; 0; 0; 1; 0] 2 Hearlier); reflexivity.
Defined.

(** ** A session that runs *)

Lemma demo_session_reachable :
  reachable (m21 := c4_music21) (ops := spec_ops) demo_session.
Proof. apply reachable_step, reachable_init. Qed.

Lemma submit_rating_records_and_keeps_elite_witness :
  (reachable (m21 := c4_music21) (ops := spec_ops) demo_session /\
   last_genome demo_session = Some [0; 0; 0; 1; 0; 0; 1; 0]) /\
  (submit_rating "g1_104242" 9 4 demo_session).2 = Ok tt /\
  ratings (submit_rating "g1_104242" 9 4 demo_session).1
  = [([0; 0; 0; 1; 0; 0; 1; 0], 5)] /\
  population (submit_rating "g1_104242" 9 4 demo_session).1
  = <[1%nat := [0; 0; 0; 1; 0; 0; 1; 0]]> (population demo_session).
Proof.
  split; [split; [apply demo_session_reachable|reflexivity]|].
  destruct (submit_rating_records_and_keeps_elite (m21 := c4_music21) (ops := spec_ops)
              demo_session [0; 0; 0; 1; 0; 0; 1; 0] "g1_104242" 9 4
              demo_session_reachable eq_refl)
    as (_ & _ & Hout & Hratings & _ & _ & _).
  split; [exact Hout|]. split; [exact Hratings|]. reflexivity.
Defined.

Lemma returned_candidate_is_in_population_witness :
  generate_next_candidate (m21 := c4_music21) (ops := spec_ops)
    "cand.mid" 1 demo_draws demo_init = (demo_session, Ok "g1_104242"%string) /\
  exists child,
    last_genome demo_session = Some child /\
    child ∈ population demo_session /\
    last_candidate_id demo_session = Some "g1_104242"%string /\
    generation demo_session = generation demo_init + 1 /\
    ratings demo_session = ratings demo_init.
Proof.
  split; [reflexivity|].
  apply (returned_candidate_is_in_population (m21 := c4_music21) (ops := spec_ops)
           "cand.mid" 1 demo_draws demo_init demo_session "g1_104242").
  reflexivity.
Defined.

(** * More properties of the decoder *)

(** ** Bits, little-endian *)

(** X5. On bit lists [int_from_bits] is the little-endian value: it lies in
    [[0, 2^len)], and two bit lists of one length with the same value are
    the same list, so a 4-bit chunk and its integer determine each other. *)
Theorem int_from_bits_lossless (bits bits' : list Z) :
  Forall is_bit bits -> Forall is_bit bits' ->
  length bits = length bits' ->
  0 <= int_from_bits bits < 2 ^ Z.of_nat (length bits) /\
  (int_from_bits bits = int_from_bits bits' -> bits = bits').
Proof.
  intros Hbits. revert bits'.
  induction Hbits as [|b bits Hb _ IH]; intros bits' Hbits' Hlen.
  - destruct bits'; [|done]. split; [by rewrite int_from_bits_nil|done].
  - destruct Hbits' as [|b' bits' Hb' Hbits']; [done|].
    simpl in Hlen. injection Hlen as Hlen.
    destruct (IH bits' Hbits' Hlen) as [Hrange Hinj].
    rewrite !int_from_bits_cons.
    change (length (b :: bits)) with (S (length bits)).
    rewrite Nat2Z.inj_succ, Z.pow_succ_r by lia.
    unfold is_bit in Hb, Hb'. split; [lia|].
    intros Heq. assert (b = b' /\ int_from_bits bits = int_from_bits bits')
      as [-> Hrest] by lia.
    by rewrite (Hinj Hrest).
Qed.

Lemma int_from_bits_lossless_witness :
  (Forall is_bit [1; 0; 1; 1] /\ Forall is_bit [1; 0; 1; 1] /\
   length [1; 0; 1; 1] = length [1; 0; 1; 1]) /\
  0 <= int_from_bits [1; 0; 1; 1] < 2 ^ Z.of_nat (length [1; 0; 1; 1]) /\
  (int_from_bits [1; 0; 1; 1] = int_from_bits [1; 0; 1; 1] ->
   [1; 0; 1; 1] = [1; 0; 1; 1]).
Proof.
  assert (Forall is_bit [1; 0; 1; 1]) as Hbits
    by (repeat constructor; unfold is_bit; lia).
  split; [split_and!; done|].
  apply (int_from_bits_lossless [1; 0; 1; 1] [1; 0; 1; 1] Hbits Hbits eq_refl).
Defined.

(** ** Scale names *)

Section ScaleFacts.

Context {m21 : Music21}.

Lemma build_scale_pitches key scale_name :
  getPitches (_build_scale key scale_name) = [] ->
  _build_scale key scale_name = MajorScale key.
Proof.
  unfold _build_scale.
  destruct (getPitches (if String.eqb scale_name "major" then _ else _)) eqn:Hp;
    [done|].
  intros Hempty. by rewrite Hp in Hempty.
Qed.

(** X6. A scale name outside [SCALES] (names are compared as they are, so
    ["Major"] is one) gets the major scale of the key, and so does a scale
    for which music21 returns no pitch; the pitches the decoder uses are
    always those of the scale [_build_scale] returned. *)
Theorem unknown_scale_falls_back_to_major (key scale_name : string) :
  scale_name ∉ SCALES ->
  _build_scale key scale_name = MajorScale key /\
  resolve_pitches key scale_name = getPitches (MajorScale key) /\
  forall other, resolve_pitches key other = getPitches (_build_scale key other).
Proof.
  intros Hname.
  assert (_build_scale key scale_name = MajorScale key) as Hsc.
  { assert (forall name, name ∈ SCALES -> String.eqb scale_name name = false) as Hne
      by (intros name Hin; apply String.eqb_neq; by intros ->).
    unfold _build_scale.
    rewrite (Hne "major"), (Hne "minor"), (Hne "dorian"), (Hne "phrygian"),
      (Hne "lydian"), (Hne "mixolydian"), (Hne "majorBlues"), (Hne "minorBlues")
      by (unfold SCALES; repeat constructor).
    by destruct (getPitches (MajorScale key)). }
  split; [done|]. split.
  - unfold resolve_pitches. rewrite Hsc. by destruct (getPitches (MajorScale key)).
  - intros other. unfold resolve_pitches.
    destruct (getPitches (_build_scale key other)) eqn:Hp; [|done].
    by rewrite (build_scale_pitches _ _ Hp) in Hp.
Qed.

End ScaleFacts.

Lemma unknown_scale_falls_back_to_major_witness :
  ("Major"%string ∉ SCALES) /\
  _build_scale (m21 := c4_music21) "C" "Major" = MajorScale "C" /\
  resolve_pitches (m21 := c4_music21) "C" "Major" = [60; 62; 64; 65; 67; 69; 71; 72] /\
  forall other,
    resolve_pitches (m21 := c4_music21) "C" other
    = getPitches (Music21 := c4_music21) (_build_scale (m21 := c4_music21) "C" other).
Proof.
  assert ("Major"%string ∉ SCALES) as Hname by (by apply (bool_decide_unpack _)).
  split; [exact Hname|].
  apply (unknown_scale_falls_back_to_major (m21 := c4_music21) "C" "Major" Hname).
Defined.

(** ** What the decoder raises, and the shape of what it returns *)

Lemma for_each_Forall2 {A B} (f : A -> result B) xs ys :
  for_each f xs = Ok ys -> Forall2 (fun x y => f x = Ok y) xs ys.
Proof.
  revert ys. induction xs as [|x xs IH]; intros ys; simpl.
  - intros [= <-]. constructor.
  - destruct (f x) as [y|e] eqn:Hx; simpl; [|done].
    destruct (for_each f xs) as [ys'|e]; simpl; [|done].
    intros [= <-]. constructor; [done|by apply IH].
Qed.

Lemma for_each_error {A B} (f : A -> result B) xs e :
  for_each f xs = Raise e -> exists x, x ∈ xs /\ f x = Raise e.
Proof.
  induction xs as [|x xs IH]; simpl; [done|].
  destruct (f x) as [y|e'] eqn:Hx; simpl.
  - destruct (for_each f xs) as [ys|e']; simpl; [done|].
    intros [= ->]. destruct (IH eq_refl) as (x' & Hin & Hx').
    exists x'. split; [by apply list_elem_of_further|done].
  - intros [= ->]. exists x. split; [apply list_elem_of_here|done].
Qed.

Lemma step_pitch_error sp step v e :
  step_pitch sp step v = Raise e -> e = ZeroDivisionError /\ sp = [].
Proof.
  unfold step_pitch. destruct (v =? 0); [done|].
  destruct (Z.eqb_spec (Z.of_nat (length sp)) 0) as [Hlen|Hlen].
  - intros [= <-]. split; [done|]. by destruct sp.
  - pose proof (Z.mod_pos_bound (v + step * 2) (Z.of_nat (length sp)) ltac:(lia)).
    destruct (lookup_lt_is_Some_2 sp
                (Z.to_nat ((v + step * 2) `mod` Z.of_nat (length sp))))
      as [midi ->]; [lia|done].
Qed.

Section ShapeFacts.

Context {m21 : Music21}.

(** X7. With [num_notes = 0] the decoder raises ZeroDivisionError whatever
    the genome, the key and the scale name: the division comes before the
    scale is built. And the index [(v + step * 2) % len(scale_pitches)] is
    always in range: no pitch lookup raises IndexError, and so no call of
    the decoder does. *)
Theorem decoder_index_is_in_range (genome : Genome)
    (num_bars num_steps : Z) (pauses : bool)
    (key scale_name : string) (root : Z) :
  genome_to_melody genome num_bars 0 num_steps pauses key scale_name root
  = Raise ZeroDivisionError /\
  (forall scale_pitches step v,
     step_pitch scale_pitches step v <> Raise IndexError) /\
  forall num_notes,
    genome_to_melody genome num_bars num_notes num_steps pauses key scale_name root
    <> Raise IndexError.
Proof.
  split; [done|]. split.
  - intros scale_pitches step v Hv. by apply step_pitch_error in Hv as [? _].
  - intros num_notes. unfold genome_to_melody, note_length_of.
    destruct (num_notes =? 0); simpl; [done|].
    destruct (expand_steps _ _ _) as [steps|e] eqn:Hsteps; simpl; [done|].
    intros [= ->].
    apply for_each_error in Hsteps as (step & _ & Hstep).
    apply for_each_error in Hstep as (v & _ & Hv).
    by apply step_pitch_error in Hv as [? _].
Qed.

Lemma decode_chunk_aligned pauses nl m c :
  aligned m -> aligned (decode_chunk pauses nl m c).
Proof.
  intros [Hv Hb]. unfold decode_chunk, aligned.
  repeat case_match; simpl; rewrite ?length_app, ?length_add_to_last; simpl; lia.
Qed.

Lemma decode_rest_velocity pauses nl chunks :
  Forall2 (fun v n => v = 0 -> n = 0)
          (velocity (decode_chunks pauses nl chunks))
          (notes (decode_chunks pauses nl chunks)).
Proof.
  unfold decode_chunks.
  apply (foldl_decode_invariant
           (fun m => Forall2 (fun v n => v = 0 -> n = 0) (velocity m) (notes m)));
    [constructor|].
  intros m c Hm. unfold decode_chunk.
  destruct (_ <=? _); [|destruct (bool_decide _ && bool_decide _)]; simpl;
    [|done|]; (apply Forall2_app; [done|by repeat constructor]).
Qed.

(** X8. A decoded melody has [num_steps] steps (none for a negative
    number); every step has one pitch per entry, as many as there are
    velocities and durations, at most [num_bars * num_notes]; and an entry
    of velocity 0, a rest, is 0 in every step. *)
Theorem decoded_steps_shape (genome : Genome)
    (num_bars num_notes num_steps : Z) (pauses : bool)
    (key scale_name : string) (root : Z) (m : StepMelody) :
  genome_to_melody genome num_bars num_notes num_steps pauses key scale_name root
  = Ok m ->
  length (step_notes m) = Z.to_nat num_steps /\
  length (step_velocity m) = length (step_beat m) /\
  (length (step_beat m) <= Z.to_nat (num_bars * num_notes))%nat /\
  forall step, step ∈ step_notes m ->
    length step = length (step_beat m) /\
    forall i, step_velocity m !! i = Some 0 -> step !! i = Some 0.
Proof.
  unfold genome_to_melody. destruct (note_length_of num_notes) as [nl|e]; [|done].
  simpl. destruct (expand_steps _ _ _) as [steps|e] eqn:Hsteps; [|done].
  simpl. intros [= <-]. simpl.
  set (melody := decode_chunks pauses nl (chunks_of genome num_bars num_notes)) in *.
  destruct (decode_aligned pauses nl (chunks_of genome num_bars num_notes))
    as [Hv Hb]. fold melody in Hv, Hb.
  unfold expand_steps, range in Hsteps. apply for_each_Forall2 in Hsteps.
  split; [by rewrite <- (Forall2_length _ _ _ Hsteps), length_seqZ|].
  split; [congruence|]. split.
  { rewrite Hb. unfold melody, decode_chunks.
    etrans; [apply foldl_decode_length|]. simpl. by rewrite length_chunks_of. }
  intros step Hin.
  apply list_elem_of_lookup in Hin as [k Hk].
  destruct (Forall2_lookup_r _ _ _ _ _ Hsteps Hk) as (s & _ & Hstep).
  apply for_each_Forall2 in Hstep.
  split; [by rewrite <- (Forall2_length _ _ _ Hstep), Hb|].
  intros i Hvel.
  pose proof (decode_rest_velocity pauses nl (chunks_of genome num_bars num_notes))
    as Hrest. fold melody in Hrest.
  destruct (Forall2_lookup_l _ _ _ _ _ Hrest Hvel) as (n & Hn & Hzero).
  rewrite (Hzero eq_refl) in Hn.
  destruct (Forall2_lookup_l _ _ _ _ _ Hstep Hn) as (y & Hy & Hpitch).
  rewrite step_pitch_rest in Hpitch. by injection Hpitch as <-.
Qed.

(** ** Durations *)

Lemma merged_duration_S (note_length : Q) (extra : nat) :
  merged_duration note_length (S extra)
  = (merged_duration note_length extra + note_length)%Q.
Proof. unfold merged_duration. by rewrite replicate_S_end, foldl_app. Qed.

Lemma add_to_last_merged (nl : Q) (extras : list nat) (extra : nat) :
  add_to_last (map (merged_duration nl) (extras ++ [extra])) nl
  = map (merged_duration nl) (extras ++ [S extra]).
Proof.
  rewrite !map_app. simpl. unfold add_to_last. rewrite last_snoc.
  rewrite length_app. simpl.
  replace (Nat.pred (length (map (merged_duration nl) extras) + 1))
    with (length (map (merged_duration nl) extras) + 0)%nat by lia.
  rewrite insert_app_r. simpl. by rewrite merged_duration_S.
Qed.

Lemma decode_chunk_counts pauses nl m c (extras : list nat) :
  aligned m -> beat m = map (merged_duration nl) extras ->
  exists extras',
    beat (decode_chunk pauses nl m c) = map (merged_duration nl) extras' /\
    (length extras' + sum_list extras' = S (length extras + sum_list extras))%nat.
Proof.
  intros [_ Hb] Hbeat. unfold decode_chunk.
  destruct (_ <=? _); [|destruct (bool_decide _ && bool_decide _) eqn:Hmerge];
    simpl.
  - exists (extras ++ [0%nat]).
    rewrite map_app, Hbeat, length_app, sum_list_with_app. simpl.
    split; [done|lia].
  - apply andb_prop in Hmerge as [Hlen _]. apply bool_decide_eq_true in Hlen.
    destruct extras as [|extra extras _] using rev_ind.
    { rewrite Hbeat in Hb. simpl in Hb. lia. }
    exists (extras ++ [S extra]).
    rewrite Hbeat, add_to_last_merged. split; [done|].
    rewrite !length_app, !sum_list_with_app. simpl. unfold id. lia.
  - exists (extras ++ [0%nat]).
    rewrite map_app, Hbeat, length_app, sum_list_with_app. simpl.
    split; [done|lia].
Qed.

Lemma foldl_decode_counts pauses nl chunks m (extras : list nat) :
  aligned m -> beat m = map (merged_duration nl) extras ->
  exists extras',
    beat (foldl (decode_chunk pauses nl) m chunks)
    = map (merged_duration nl) extras' /\
    (length extras' + sum_list extras'
     = length extras + sum_list extras + length chunks)%nat.
Proof.
  revert m extras. induction chunks as [|c chunks IH]; intros m extras Hm Hbeat.
  - exists extras. simpl. split; [done|lia].
  - change (foldl ?f m (c :: chunks)) with (foldl f (f m c) chunks).
    destruct (decode_chunk_counts pauses nl m c extras Hm Hbeat)
      as (extras1 & Hbeat1 & Hcount1).
    destruct (IH _ extras1 (decode_chunk_aligned pauses nl m c Hm) Hbeat1)
      as (extras' & Hbeat' & Hcount').
    exists extras'. split; [done|]. simpl. lia.
Qed.

(** X9. Merging repeated notes loses no chunk: every duration of a decoded
    melody is [note_length] followed by [+= note_length] once for each
    chunk merged into that entry, added in this order, and the entries and
    the merged chunks together are the [num_bars * num_notes] chunks (none
    for a negative product). *)
Theorem merged_durations_count_every_chunk (genome : Genome)
    (num_bars num_notes num_steps : Z) (pauses : bool)
    (key scale_name : string) (root : Z) (m : StepMelody) :
  genome_to_melody genome num_bars num_notes num_steps pauses key scale_name root
  = Ok m ->
  exists (note_length : Q) (extras : list nat),
    note_length_of num_notes = Ok note_length /\
    step_beat m = map (merged_duration note_length) extras /\
    (length extras + sum_list extras = Z.to_nat (num_bars * num_notes))%nat.
Proof.
  unfold genome_to_melody.
  destruct (note_length_of num_notes) as [nl|e]; [|done]. simpl.
  destruct (expand_steps _ _ _) as [steps|e]; [|done].
  simpl. intros [= <-]. simpl. unfold decode_chunks.
  destruct (foldl_decode_counts pauses nl (chunks_of genome num_bars num_notes)
              empty_melody []) as (extras & Hbeat & Hcount); [done|done|].
  exists nl, extras. split; [done|]. split; [done|].
  rewrite Hcount, length_chunks_of. simpl. lia.
Qed.

End ShapeFacts.

Lemma decoded_steps_shape_witness :
  genome_to_melody (m21 := c4_music21) demo_genome 1 4 2 true "C" "major" 0
  = Ok demo_melody /\
  length (step_notes demo_melody) = Z.to_nat 2 /\
  length (step_velocity demo_melody) = length (step_beat demo_melody) /\
  (length (step_beat demo_melody) <= Z.to_nat (1 * 4))%nat /\
  forall step, step ∈ step_notes demo_melody ->
    length step = length (step_beat demo_melody) /\
    forall i, step_velocity demo_melody !! i = Some 0 -> step !! i = Some 0.
Proof.
  split; [reflexivity|].
  apply (decoded_steps_shape (m21 := c4_music21) demo_genome 1 4 2 true
           "C" "major" 0 demo_melody).
  reflexivity.
Defined.

Lemma merged_durations_count_every_chunk_witness :
  genome_to_melody (m21 := c4_music21) demo_genome 1 4 2 true "C" "major" 0
  = Ok demo_melody /\
  exists (note_length : Q) (extras : list nat),
    note_length_of 4 = Ok note_length /\
    step_beat demo_melody = map (merged_duration note_length) extras /\
    (length extras + sum_list extras = Z.to_nat (1 * 4))%nat.
Proof.
  split; [reflexivity|].
  apply (merged_durations_count_every_chunk (m21 := c4_music21) demo_genome
           1 4 2 true "C" "major" 0 demo_melody).
  reflexivity.
Defined.

(** * Streams, ratings at the console, file names *)

Lemma stream_notes_spec (melody : StepMelody) (step : list Z) :
  forall (i : nat) (s : Stream) (current_offset : Q),
    (i + length step <= length (step_beat melody))%nat ->
    (i + length step <= length (step_velocity melody))%nat ->
    exists s',
      stream_notes melody i step s current_offset = Ok s' /\
      length s' = (length s + length step)%nat /\
      take (length s) s' = s /\
      forall j v, step !! j = Some v ->
        exists dur vel,
          step_beat melody !! (i + j)%nat = Some dur /\
          step_velocity melody !! (i + j)%nat = Some vel /\
          s' !! (length s + j)%nat
          = Some (StreamInsert
                    (foldl Qplus current_offset (take j (drop i (step_beat melody))))
                    (if v =? 0 then Rest dur else Note v vel dur)).
Proof.
  induction step as [|v step IH]; intros i s current_offset Hbeat Hvel.
  - exists s. simpl. split_and!; [done|lia|by rewrite take_ge|done].
  - simpl in Hbeat, Hvel.
    destruct (lookup_lt_is_Some_2 (step_beat melody) i) as [dur Hdur]; [lia|].
    destruct (lookup_lt_is_Some_2 (step_velocity melody) i) as [vel Hv]; [lia|].
    simpl. rewrite Hdur, Hv.
    set (n := if v =? 0 then Rest dur else Note v vel dur).
    assert ((if v =? 0 then Ok (Rest dur) else Ok (Note v vel dur)) = Ok n) as ->
      by (unfold n; by destruct (v =? 0)).
    simpl.
    destruct (IH (S i) (s ++ [StreamInsert current_offset n]) (current_offset + dur)%Q)
      as (s' & Hs' & Hlen & Htake & Hat); [lia|lia|].
    rewrite length_app in Hlen, Htake, Hat. simpl in Hlen, Htake, Hat.
    exists s'. split; [done|]. split; [simpl; lia|].
    assert (s' !! length s = Some (StreamInsert current_offset n)) as Hhere.
    { rewrite <- (lookup_take_lt s' (length s + 1)) by lia.
      rewrite Htake. by rewrite lookup_app_r, Nat.sub_diag by lia. }
    split.
    { apply (f_equal (take (length s))) in Htake.
      rewrite take_take, Nat.min_l in Htake by lia.
      by rewrite Htake, take_app_length. }
    intros [|j] w Hw.
    + injection Hw as <-. exists dur, vel.
      rewrite !Nat.add_0_r. by split_and!.
    + destruct (Hat j w Hw) as (dur' & vel' & Hd' & Hv' & Hs'j).
      exists dur', vel'.
      replace (i + S j)%nat with (S i + j)%nat by lia.
      replace (length s + S j)%nat with (length s + 1 + j)%nat by lia.
      split_and!; [done|done|].
      rewrite Hs'j. by rewrite (drop_S _ _ _ Hdur).
Qed.

Section StreamFacts.

Context {m21 : Music21}.

Lemma decoded_steps_aligned genome num_bars num_notes num_steps pauses
    key scale_name root m :
  genome_to_melody genome num_bars num_notes num_steps pauses key scale_name root
  = Ok m ->
  length (step_notes m) = Z.to_nat num_steps /\
  length (step_velocity m) = length (step_beat m) /\
  Forall (fun step => length step = length (step_beat m)) (step_notes m).
Proof.
  unfold genome_to_melody. destruct (note_length_of num_notes) as [nl|e]; [|done].
  simpl. destruct (expand_steps _ _ _) as [steps|e] eqn:Hsteps; [|done].
  simpl. intros [= <-]. simpl.
  destruct (decode_aligned pauses nl (chunks_of genome num_bars num_notes))
    as [Hv Hb].
  unfold expand_steps, range in Hsteps. apply for_each_Forall2 in Hsteps.
  split; [by rewrite <- (Forall2_length _ _ _ Hsteps), length_seqZ|].
  split; [congruence|].
  apply Forall_forall. intros step Hin.
  apply list_elem_of_lookup in Hin as [k Hk].
  destruct (Forall2_lookup_r _ _ _ _ _ Hsteps Hk) as (s & _ & Hstep).
  apply for_each_Forall2 in Hstep.
  by rewrite <- (Forall2_length _ _ _ Hstep), Hb.
Qed.

Lemma for_each_Forall_ok {A B} (f : A -> result B) xs :
  Forall (fun x => exists y, f x = Ok y) xs -> exists ys, for_each f xs = Ok ys.
Proof.
  induction 1 as [|x xs [y Hy] _ [ys IH]]; simpl; [by eexists|].
  rewrite Hy, IH. simpl. by eexists.
Qed.

Lemma streams_of_melody genome num_bars num_notes num_steps pauses
    key scale_name root bpm m :
  genome_to_melody genome num_bars num_notes num_steps pauses key scale_name root
  = Ok m ->
  exists streams,
    genome_to_stream genome num_bars num_notes num_steps pauses key scale_name
                     root bpm = Ok streams /\
    length streams = Z.to_nat num_steps /\
    Forall2 (fun step s =>
               stream_notes m 0 step
                 [StreamAppend (MetronomeMark bpm); StreamAppend Piano] 0%Q = Ok s /\
               (0 + length step <= length (step_beat m))%nat /\
               (0 + length step <= length (step_velocity m))%nat)
            (step_notes m) streams.
Proof.
  intros Hm.
  destruct (decoded_steps_aligned _ _ _ _ _ _ _ _ _ Hm) as (Hn & Hv & Hsteps).
  unfold genome_to_stream. rewrite Hm. simpl.
  set (start := [StreamAppend (MetronomeMark bpm); StreamAppend Piano]).
  assert (forall step, step ∈ step_notes m ->
            (0 + length step <= length (step_beat m))%nat /\
            (0 + length step <= length (step_velocity m))%nat) as Hfit.
  { intros step Hin. rewrite Forall_forall in Hsteps.
    rewrite (Hsteps step Hin). lia. }
  destruct (for_each_Forall_ok (fun step => stream_notes m 0 step start 0%Q)
              (step_notes m)) as [streams Hstreams].
  { apply Forall_forall. intros step Hin. destruct (Hfit step Hin) as [Hb Hvl].
    destruct (stream_notes_spec m step 0 start 0%Q Hb Hvl) as (s & Hs & _).
    by exists s. }
  exists streams. split; [done|].
  apply for_each_Forall2 in Hstreams.
  split; [by rewrite <- (Forall2_length _ _ _ Hstreams)|].
  apply Forall2_same_length_lookup_2; [by apply Forall2_length in Hstreams|].
  intros k step s Hk Hs. split; [by apply (Forall2_lookup_lr _ _ _ k _ _ Hstreams)|].
  apply Hfit, list_elem_of_lookup. eauto.
Qed.

(** X10. Whenever the genome decodes, [genome_to_stream] returns one
    stream per step and raises nothing (its indices into ["beat"] and
    ["velocity"] are in range). Each stream is the tempo mark and the
    piano followed by one element per entry of the step: a rest where the
    step holds 0, else a note with the entry's velocity, of the entry's
    duration, inserted at the sum of the durations before it. *)
Theorem streams_follow_the_melody (genome : Genome)
    (num_bars num_notes num_steps : Z) (pauses : bool)
    (key scale_name : string) (root bpm : Z) (m : StepMelody) :
  genome_to_melody genome num_bars num_notes num_steps pauses key scale_name root
  = Ok m ->
  exists streams,
    genome_to_stream genome num_bars num_notes num_steps pauses key scale_name
                     root bpm = Ok streams /\
    length streams = Z.to_nat num_steps /\
    forall k step, step_notes m !! k = Some step ->
      exists s,
        streams !! k = Some s /\
        take 2 s = [StreamAppend (MetronomeMark bpm); StreamAppend Piano] /\
        length s = (2 + length step)%nat /\
        forall j v, step !! j = Some v ->
          exists dur vel,
            step_beat m !! j = Some dur /\
            step_velocity m !! j = Some vel /\
            s !! (2 + j)%nat
            = Some (StreamInsert (foldl Qplus 0%Q (take j (step_beat m)))
                                 (if v =? 0 then Rest dur else Note v vel dur)).
Proof.
  intros Hm.
  destruct (streams_of_melody _ _ _ _ _ _ _ _ bpm _ Hm)
    as (streams & Hstreams & Hlen & Hall).
  exists streams. split_and!; [done|done|].
  intros k step Hk.
  destruct (Forall2_lookup_l _ _ _ _ _ Hall Hk) as (s & Hs & Hrun & Hb & Hvl).
  destruct (stream_notes_spec m step 0
              [StreamAppend (MetronomeMark bpm); StreamAppend Piano] 0%Q Hb Hvl)
    as (s' & Hs' & Hlen' & Htake & Hat).
  rewrite Hrun in Hs'. injection Hs' as <-.
  exists s. split_and!; [done|done|done|].
  intros j v Hj. destruct (Hat j v Hj) as (dur & vel & Hd & Hvel & Hsj).
  exists dur, vel. by split_and!.
Qed.

(** X11. [fitness] returns a rating in [[0, 5]] whenever the genome
    decodes, and raises what the decoder raises otherwise. The rating is 0
    when there is no step to play ([num_steps <= 0]), when showing the
    stream fails, when the input is not an integer and when reading it
    fails; a typed integer is clamped. *)
Theorem fitness_is_a_rating (show : Stream -> result unit)
    (typed : result (option Z)) (genome : Genome)
    (num_bars num_notes num_steps : Z) (pauses : bool)
    (key scale_name : string) (root bpm : Z) :
  match fitness show typed genome num_bars num_notes num_steps pauses
                key scale_name root bpm with
  | Ok r =>
      0 <= r <= 5 /\
      (num_steps <= 0 -> r = 0) /\
      ((forall s, exists e, show s = Raise e) -> r = 0) /\
      (typed = Ok None \/ (exists e, typed = Raise e) -> r = 0) /\
      ((forall s, show s = Ok tt) -> 0 < num_steps ->
       forall n, typed = Ok (Some n) -> r = Z.max 0 (Z.min 5 n))
  | Raise e =>
      genome_to_melody genome num_bars num_notes num_steps pauses
                       key scale_name root = Raise e
  end.
Proof.
  unfold fitness.
  destruct (genome_to_melody genome num_bars num_notes num_steps pauses
              key scale_name root) as [m|e] eqn:Hm.
  - destruct (streams_of_melody _ _ _ _ _ _ _ _ bpm _ Hm) as (streams & -> & Hlen & _).
    simpl. destruct streams as [|s0 streams].
    + split; [lia|]. split_and!; try done.
      intros _ Hsteps. simpl in Hlen. lia.
    + split.
      { destruct (show s0); [|lia]. destruct typed as [[n|]|]; lia. }
      split_and!.
      * intros Hsteps. simpl in Hlen. lia.
      * intros Hshow. destruct (Hshow s0) as [e ->]. done.
      * intros [->|[e ->]]; by destruct (show s0).
      * intros Hshow _ n ->. by rewrite Hshow.
  - unfold genome_to_stream. rewrite Hm. done.
Qed.

End StreamFacts.

Lemma streams_follow_the_melody_witness :
  genome_to_melody (m21 := c4_music21) demo_genome 1 4 2 true "C" "major" 0
  = Ok demo_melody /\
  exists streams,
    genome_to_stream (m21 := c4_music21) demo_genome 1 4 2 true "C" "major" 0 120
    = Ok streams /\
    length streams = Z.to_nat 2 /\
    forall k step, step_notes demo_melody !! k = Some step ->
      exists s,
        streams !! k = Some s /\
        take 2 s = [StreamAppend (MetronomeMark 120); StreamAppend Piano] /\
        length s = (2 + length step)%nat /\
        forall j v, step !! j = Some v ->
          exists dur vel,
            step_beat demo_melody !! j = Some dur /\
            step_velocity demo_melody !! j = Some vel /\
            s !! (2 + j)%nat
            = Some (StreamInsert (foldl Qplus 0%Q (take j (step_beat demo_melody)))
                                 (if v =? 0 then Rest dur else Note v vel dur)).
Proof.
  split; [reflexivity|].
  apply (streams_follow_the_melody (m21 := c4_music21) demo_genome 1 4 2 true
           "C" "major" 0 120 demo_melody).
  reflexivity.
Defined.

(** The streams of [demo_genome]: its first entry, scale degree 0, is
    rendered as a rest. *)
Example demo_streams :
  genome_to_stream (m21 := c4_music21) demo_genome 1 4 2 true "C" "major" 0 120
  = Ok [[StreamAppend (MetronomeMark 120); StreamAppend Piano;
         StreamInsert 0 (Rest (4 / 4 + 4 / 4));
         StreamInsert (0 + (4 / 4 + 4 / 4)) (Rest (4 / 4));
         StreamInsert (0 + (4 / 4 + 4 / 4) + 4 / 4) (Note 64 127 (4 / 4))];
        [StreamAppend (MetronomeMark 120); StreamAppend Piano;
         StreamInsert 0 (Rest (4 / 4 + 4 / 4));
         StreamInsert (0 + (4 / 4 + 4 / 4)) (Rest (4 / 4));
         StreamInsert (0 + (4 / 4 + 4 / 4) + 4 / 4) (Note 67 127 (4 / 4))]]%Q.
Proof. reflexivity. Qed.

(** ** File names of the steps *)

Lemma string_length_app (s1 s2 : string) :
  String.length (s1 +:+ s2) = (String.length s1 + String.length s2)%nat.
Proof. induction s1 as [|a s1 IH]; simpl; [done|]. by rewrite IH. Qed.

Lemma string_app_assoc (s1 s2 s3 : string) :
  (s1 +:+ s2) +:+ s3 = s1 +:+ s2 +:+ s3.
Proof.
  induction s1 as [|a s1 IH]; [done|].
  change (String a ((s1 +:+ s2) +:+ s3) = String a (s1 +:+ s2 +:+ s3)).
  by rewrite IH.
Qed.

Lemma string_app_inv_tail (s1 s2 s : string) : s1 +:+ s = s2 +:+ s -> s1 = s2.
Proof.
  revert s2. induction s1 as [|a s1 IH]; intros [|b s2] Heq; [done| | |].
  - apply (f_equal String.length) in Heq.
    rewrite !string_length_app in Heq. simpl in Heq. lia.
  - apply (f_equal String.length) in Heq.
    rewrite !string_length_app in Heq. simpl in Heq. lia.
  - change (String a (s1 +:+ s) = String b (s2 +:+ s)) in Heq.
    injection Heq as -> Heq. by rewrite (IH s2 Heq).
Qed.

Lemma midi_out_inj (base ext : string) (i j : nat) :
  midi_out base ext i = midi_out base ext j -> i = j.
Proof.
  assert (forall k, base +:+ ext <> base +:+ "_step" +:+ pretty (S k) +:+ ext)
    as Hfirst.
  { intros k Heq. apply (inj (String.app base)) in Heq.
    apply (f_equal String.length) in Heq.
    rewrite !string_length_app in Heq. simpl in Heq. lia. }
  destruct i as [|i], j as [|j]; simpl; intros Heq; [done| | |].
  - by apply Hfirst in Heq.
  - symmetry in Heq. by apply Hfirst in Heq.
  - apply (inj (String.app base)), (inj (String.app "_step")) in Heq.
    apply string_app_inv_tail in Heq. by apply (inj pretty) in Heq.
Qed.

Lemma lower_midi_ext (ext : string) : lower (midi_ext ext) = ".mid"%string.
Proof.
  unfold midi_ext. by destruct (String.eqb_spec (lower ext) ".mid").
Qed.

(** X12. [save_genome_to_midi] writes one file per stream, all under
    different names, so no step overwrites another; every name ends in an
    extension that is [.mid] up to the case of its letters, and the first
    is the given base with that extension. *)
Theorem midi_files_are_distinct {A : Type} (base ext : string) (streams : list A) :
  NoDup (midi_outs base ext streams) /\
  length (midi_outs base ext streams) = length streams /\
  lower (midi_ext ext) = ".mid"%string /\
  (forall out, out ∈ midi_outs base ext streams ->
     exists stem, out = stem +:+ midi_ext ext) /\
  (streams <> [] -> midi_outs base ext streams !! 0%nat = Some (base +:+ midi_ext ext)).
Proof.
  unfold midi_outs. split_and!.
  - apply NoDup_alt. intros i j out.
    rewrite !list_lookup_imap.
    destruct (streams !! i), (streams !! j); simpl; try done.
    intros [= <-] [= Heq]. symmetry. by apply (midi_out_inj _ _ _ _ Heq).
  - apply length_imap.
  - apply lower_midi_ext.
  - intros out Hin. apply list_elem_of_lookup in Hin as [i Hi].
    rewrite list_lookup_imap in Hi.
    destruct (streams !! i); simpl in Hi; [|done]. injection Hi as <-.
    destruct i as [|i]; simpl; [by exists base|].
    exists (base +:+ "_step" +:+ pretty (S i)).
    by rewrite !string_app_assoc.
  - intros Hne. rewrite list_lookup_imap. by destruct streams.
Qed.

(** * One generation of the interactive loop *)

Lemma insert_desc_perm (x : Genome * Z) (l : list (Genome * Z)) :
  insert_desc x l ≡ₚ x :: l.
Proof.
  induction l as [|y l IH]; simpl; [done|].
  destruct (y.2 <=? x.2); [done|]. rewrite IH. apply Permutation_swap.
Qed.

Lemma sorted_desc_perm (l : list (Genome * Z)) : sorted_desc l ≡ₚ l.
Proof.
  induction l as [|x l IH]; simpl; [done|].
  by rewrite insert_desc_perm, IH.
Qed.

Lemma insert_desc_sorted (x : Genome * Z) (l : list (Genome * Z)) :
  StronglySorted (fun a b => b.2 <= a.2) l ->
  StronglySorted (fun a b => b.2 <= a.2) (insert_desc x l).
Proof.
  induction 1 as [|y l Hl IH Hy]; simpl; [by repeat constructor|].
  destruct (Z.leb_spec y.2 x.2) as [Hle|Hlt].
  - constructor; [by constructor|].
    constructor; [done|]. eapply Forall_impl; [exact Hy|]. simpl. lia.
  - constructor; [done|]. rewrite insert_desc_perm. constructor; [lia|done].
Qed.

Lemma sorted_desc_sorted (l : list (Genome * Z)) :
  StronglySorted (fun a b => b.2 <= a.2) (sorted_desc l).
Proof.
  induction l as [|x l IH]; simpl; [constructor|]. by apply insert_desc_sorted.
Qed.

Lemma length_concat_pairs {A} (ls : list (list A)) :
  Forall (fun l => length l = 2%nat) ls -> length (concat ls) = (2 * length ls)%nat.
Proof.
  induction 1 as [|l ls Hl _ IH]; simpl; [done|]. rewrite length_app, Hl, IH. lia.
Qed.

Section MainFacts.

Context {m21 : Music21} {ops : GeneticOps}.
Variable show : Stream -> result unit.
Variable makedirs : string -> result unit.

Lemma fitness_range typed genome num_bars num_notes num_steps pauses
    key scale_name root bpm r :
  fitness show typed genome num_bars num_notes num_steps pauses key scale_name
          root bpm = Ok r ->
  0 <= r <= 5.
Proof.
  unfold fitness. destruct (genome_to_stream _ _ _ _ _ _ _ _ _) as [streams|e];
    simpl; [|done].
  intros [= <-]. destruct streams as [|s0 ?]; [lia|].
  destruct (show s0); [|lia]. destruct typed as [[n|]|]; lia.
Qed.

Lemma breed_pair population fitness_lookup num_mutations mutation_probability d l :
  breed population fitness_lookup num_mutations mutation_probability d = Ok l ->
  length l = 2%nat.
Proof.
  unfold breed.
  destruct (selection_pair _ _ _) as [parents|e]; simpl; [|done].
  destruct (single_point_crossover _ _ _) as [children|e]; simpl; [|done].
  destruct (mutation _ children.1 _ _) as [a|e]; simpl; [|done].
  destruct (mutation _ children.2 _ _) as [b|e]; simpl; [|done].
  by intros [= <-].
Qed.

Lemma main_generation_inv population num_bars num_notes num_steps pauses key scale
    root num_mutations mutation_probability bpm folder population_id typed draws next :
  main_generation show makedirs population num_bars num_notes num_steps pauses
    key scale root num_mutations mutation_probability bpm folder population_id
    typed draws = Ok next ->
  exists pop_fit children,
    Forall2 (fun (ig : nat * Genome) gf =>
               gf.1 = ig.2 /\
               fitness show (typed ig.1) ig.2 num_bars num_notes num_steps pauses
                       key scale root bpm = Ok gf.2)
            (imap pair population) pop_fit /\
    Forall2 (fun _ l => length l = 2%nat)
            (range (Z.of_nat (length population) / 2 - 1)) children /\
    next = take 2 (map fst (sorted_desc pop_fit)) ++ concat children.
Proof.
  unfold main_generation.
  destruct (for_each _ (imap pair population)) as [pop_fit|e] eqn:Hfit;
    simpl; [|done].
  destruct (for_each _ (range _)) as [children|e] eqn:Hbreed; simpl; [|done].
  destruct (makedirs _); simpl; [|done].
  destruct (for_each _ (imap pair (map fst _))); simpl; [|done].
  intros [= <-].
  apply for_each_Forall2 in Hfit, Hbreed.
  assert (Forall2 (fun (ig : nat * Genome) gf =>
                     gf.1 = ig.2 /\
                     fitness show (typed ig.1) ig.2 num_bars num_notes num_steps
                             pauses key scale root bpm = Ok gf.2)
                  (imap pair population) pop_fit) as Hpop.
  { eapply Forall2_impl; [exact Hfit|]. intros ig gf Hrun. simpl in Hrun.
    destruct (fitness _ _ _ _ _ _ _ _ _ _ _) as [f|e] eqn:Hf; simpl in Hrun; [|done].
    by injection Hrun as <-. }
  exists pop_fit, children. split; [done|].
  assert (length (map fst (sorted_desc pop_fit)) = length population) as Hlen.
  { by rewrite length_map, (Permutation_length (sorted_desc_perm pop_fit)),
      <- (Forall2_length _ _ _ Hpop), length_imap. }
  rewrite Hlen in Hbreed. split; [|done].
  eapply Forall2_impl; [exact Hbreed|]. intros k l. apply breed_pair.
Qed.

(** X13. When one generation of the interactive loop completes, the next
    generation has the size of the population rounded down to an even
    number: an even population keeps its size, an odd one of three or more
    loses one individual, and a population of fewer than two is carried
    over as it is. *)
Theorem next_generation_size population num_bars num_notes num_steps pauses
    key scale root num_mutations mutation_probability bpm folder population_id
    typed draws next :
  main_generation show makedirs population num_bars num_notes num_steps pauses
    key scale root num_mutations mutation_probability bpm folder population_id
    typed draws = Ok next ->
  length next
  = if (length population <? 2)%nat then length population
    else (2 * (length population / 2))%nat.
Proof.
  intros Hnext.
  destruct (main_generation_inv _ _ _ _ _ _ _ _ _ _ _ _ _ _ _ _ Hnext)
    as (pop_fit & children & Hpop & Hchildren & ->).
  rewrite length_app, length_take, length_map.
  rewrite (Permutation_length (sorted_desc_perm pop_fit)).
  rewrite <- (Forall2_length _ _ _ Hpop), length_imap.
  rewrite (length_concat_pairs children)
    by (eapply Forall2_Forall_r; [exact Hchildren|]; by apply Forall_true).
  rewrite <- (Forall2_length _ _ _ Hchildren). unfold range. rewrite length_seqZ.
  set (n := length population).
  destruct (Nat.ltb_spec n 2) as [Hsmall|Hbig].
  - replace (Z.of_nat n / 2 - 1) with (-1)
      by (destruct n as [|[|?]]; [done|done|lia]).
    change (Z.to_nat (-1)) with 0%nat. lia.
  - pose proof (Nat.div_mod_eq n 2).
    assert (Z.of_nat n / 2 = Z.of_nat (n / 2)) as -> by (by rewrite Nat2Z.inj_div).
    assert (1 <= n / 2)%nat by (apply Nat.div_le_lower_bound; lia).
    lia.
Qed.

(** X14. When one generation of the interactive loop completes, [fitness]
    returned a rating for every genome of the population, each in
    [[0, 5]]; [pop_fit] pairs the genome at each position with the rating
    [fitness] returned for it there, and the first two individuals of the
    next generation are the first two genomes of [pop_fit] ranked by
    descending rating: the genomes with the best returned ratings are
    carried over as they are, ahead of the bred children. *)
Theorem elite_is_carried_over population num_bars num_notes num_steps pauses
    key scale root num_mutations mutation_probability bpm folder population_id
    typed draws next :
  main_generation show makedirs population num_bars num_notes num_steps pauses
    key scale root num_mutations mutation_probability bpm folder population_id
    typed draws = Ok next ->
  exists pop_fit ranked,
    Forall2 (fun (ig : nat * Genome) gf =>
               gf.1 = ig.2 /\
               fitness show (typed ig.1) ig.2 num_bars num_notes num_steps pauses
                       key scale root bpm = Ok gf.2 /\
               0 <= gf.2 <= 5)
            (imap pair population) pop_fit /\
    ranked ≡ₚ pop_fit /\
    StronglySorted (fun a b => b.2 <= a.2) ranked /\
    take 2 next = take 2 (map fst ranked).
Proof.
  intros Hnext.
  destruct (main_generation_inv _ _ _ _ _ _ _ _ _ _ _ _ _ _ _ _ Hnext)
    as (pop_fit & children & Hpop & Hchildren & ->).
  exists pop_fit, (sorted_desc pop_fit).
  split_and!; [|apply sorted_desc_perm|apply sorted_desc_sorted|].
  { eapply Forall2_impl; [exact Hpop|]. intros ig gf [Hg Hf].
    pose proof (fitness_range _ _ _ _ _ _ _ _ _ _ _ Hf).
    split; [done|]. split; [done|lia]. }
  rewrite take_app, take_take, Nat.min_id.
  set (elite := take 2 (map fst (sorted_desc pop_fit))).
  destruct (decide (length elite = 2%nat)) as [->|Hshort].
  - by rewrite Nat.sub_diag, take_0, app_nil_r.
  - assert (length (map fst (sorted_desc pop_fit)) < 2)%nat as Hsmall.
    { unfold elite in Hshort. rewrite length_take in Hshort. lia. }
    assert (children = []) as ->.
    { apply Forall2_length in Hchildren.
      rewrite length_map, (Permutation_length (sorted_desc_perm pop_fit)),
        <- (Forall2_length _ _ _ Hpop), length_imap in Hsmall.
      unfold range in Hchildren. rewrite length_seqZ in Hchildren.
      destruct children; [done|].
      simpl in Hchildren.
      assert (Z.of_nat (length population) / 2 - 1 < 0); [|lia].
      destruct (length population) as [|[|?]]; [done|done|lia]. }
    simpl. by rewrite take_nil, app_nil_r.
Qed.

End MainFacts.

Lemma next_generation_size_witness :
  main_generation (m21 := c4_music21) (ops := spec_ops)
    (fun _ => Ok tt) (fun _ => Ok tt) demo_population 1 1 1 true "C" "major" 0
    1 (1 # 2) 120 "run" 0 demo_typed demo_pair_draws = Ok demo_next_generation /\
  length demo_next_generation
  = if (length demo_population <? 2)%nat then length demo_population
    else (2 * (length demo_population / 2))%nat.
Proof.
  split; [reflexivity|].
  apply (next_generation_size (m21 := c4_music21) (ops := spec_ops)
           (fun _ => Ok tt) (fun _ => Ok tt) demo_population 1 1 1 true
           "C" "major" 0 1 (1 # 2) 120 "run" 0 demo_typed demo_pair_draws).
  reflexivity.
Defined.

Lemma elite_is_carried_over_witness :
  main_generation (m21 := c4_music21) (ops := spec_ops)
    (fun _ => Ok tt) (fun _ => Ok tt) demo_population 1 1 1 true "C" "major" 0
    1 (1 # 2) 120 "run" 0 demo_typed demo_pair_draws = Ok demo_next_generation /\
  exists pop_fit ranked,
    Forall2 (fun (ig : nat * Genome) (gf : Genome * Z) =>
               gf.1 = ig.2 /\
               fitness (m21 := c4_music21) (fun _ => Ok tt) (demo_typed ig.1) ig.2
                       1 1 1 true "C" "major" 0 120 = Ok gf.2 /\
               0 <= gf.2 <= 5)
            (imap pair demo_population) pop_fit /\
    ranked ≡ₚ pop_fit /\
    StronglySorted (fun a b : Genome * Z => b.2 <= a.2) ranked /\
    take 2 demo_next_generation = take 2 (map fst ranked).
Proof.
  split; [reflexivity|].
  apply (elite_is_carried_over (m21 := c4_music21) (ops := spec_ops)
           (fun _ => Ok tt) (fun _ => Ok tt) demo_population 1 1 1 true
           "C" "major" 0 1 (1 # 2) 120 "run" 0 demo_typed demo_pair_draws).
  reflexivity.
Defined.

(** * More properties of the session *)

Lemma submit_rating_cases candidate_id rating draw st :
  let out := submit_rating candidate_id rating draw st in
  out = (st, Ok tt) /\ last_genome st = None
  \/ exists g,
       last_genome st = Some g /\
       let rated := set_ratings (ratings st ++ [(g, Z.max 0 (Z.min 5 rating))]) st in
       (out.1 = rated
        \/ exists idx, (idx < length (population st))%nat /\
             out = (set_population (<[idx := g]> (population st)) rated, Ok tt)).
Proof.
  unfold submit_rating, mbind, sess_bind, read, update, call. simpl.
  destruct (last_genome st) as [g|]; [|by left].
  right. exists g. split; [done|]. simpl.
  destruct (4 <=? _); simpl; [|by left].
  destruct (randrange _ _) as [idx|e] eqn:Hidx; simpl; [|by left].
  apply randrange_ok in Hidx. right. exists (Z.to_nat idx). split; [lia|done].
Qed.

Lemma length_filter_cons {A} (f : A -> bool) (x : A) (l : list A) :
  length (filter f (x :: l))
  = ((if f x then 1 else 0) + length (filter f l))%nat.
Proof.
  rewrite filter_cons. by destruct (f x).
Qed.

Section SessionFrame.

Context {m21 : Music21} {ops : GeneticOps}.

Lemma session_step_configuration st c :
  configuration (session_step st c) = configuration st.
Proof.
  destruct c as [out_path steps d|candidate_id rating draw]; simpl.
  - destruct (generate_next_candidate_cases out_path steps d st)
      as [[-> _]|(child & idx & cid & _ & -> & _)]; done.
  - destruct (submit_rating_cases candidate_id rating draw st)
      as [[-> _]|(g & _ & [->|(idx & _ & ->)])]; done.
Qed.

Lemma session_step_generation st c :
  generation (session_step st c)
  = generation st + (if is_produce c then 1 else 0).
Proof.
  destruct c as [out_path steps d|candidate_id rating draw]; simpl.
  - destruct (generate_next_candidate_cases out_path steps d st)
      as [[-> _]|(child & idx & cid & _ & -> & _)]; done.
  - destruct (submit_rating_cases candidate_id rating draw st)
      as [[-> _]|(g & _ & [->|(idx & _ & ->)])]; simpl; lia.
Qed.

(** X15. No call changes the parameters the session was created with, and
    the generation counter goes up by one with every
    [generate_next_candidate], also when it raises, and with nothing else:
    after a run it is the old counter plus the number of those calls. *)
Theorem run_keeps_configuration_and_counts_generations
    (st : SessionState) (calls : list api_call) :
  configuration (run st calls) = configuration st /\
  generation (run st calls)
  = generation st + Z.of_nat (length (filter is_produce calls)).
Proof.
  unfold run. revert st.
  induction calls as [|c calls IH]; intros st; simpl; [split; [done|lia]|].
  destruct (IH (session_step st c)) as [-> ->].
  rewrite session_step_configuration, session_step_generation.
  split; [done|]. rewrite length_filter_cons.
  destruct (is_produce c); simpl; lia.
Qed.

Lemma session_step_ratings st c :
  exists more,
    ratings (session_step st c) = ratings st ++ more /\
    Forall (fun record : Genome * Z => 0 <= record.2 <= 5) more /\
    (length more <= if is_produce c then 0 else 1)%nat.
Proof.
  destruct c as [out_path steps d|candidate_id rating draw]; simpl.
  - exists []. rewrite app_nil_r. split; [|by split].
    destruct (generate_next_candidate_cases out_path steps d st)
      as [[-> _]|(child & idx & cid & _ & -> & _)]; done.
  - destruct (submit_rating_cases candidate_id rating draw st)
      as [[-> _]|(g & _ & Hout)].
    + exists []. rewrite app_nil_r. split_and!; [done|done|simpl; lia].
    + exists [(g, Z.max 0 (Z.min 5 rating))].
      split; [by destruct Hout as [->|(idx & _ & ->)]|].
      split; [|done]. repeat constructor; simpl; lia.
Qed.

(** X16. The rating history is append-only: a run leaves the records it
    found in place and in order, and adds behind them at most one record
    per [submit_rating] and none for [generate_next_candidate]; every
    record added holds a rating in [[0, 5]]. *)
Theorem rating_history_is_append_only (st : SessionState) (calls : list api_call) :
  exists more,
    ratings (run st calls) = ratings st ++ more /\
    Forall (fun record : Genome * Z => 0 <= record.2 <= 5) more /\
    (length more <= length (filter (fun c => negb (is_produce c)) calls))%nat.
Proof.
  unfold run. revert st.
  induction calls as [|c calls IH]; intros st; simpl.
  - exists []. rewrite app_nil_r. by split_and!.
  - destruct (IH (session_step st c)) as (more2 & -> & Hrange2 & Hlen2).
    destruct (session_step_ratings st c) as (more1 & -> & Hrange1 & Hlen1).
    exists (more1 ++ more2). rewrite app_assoc. split; [done|].
    split; [by apply Forall_app|].
    rewrite length_app, length_filter_cons.
    destruct (is_produce c); simpl in *; lia.
Qed.

(** X17. One call rewrites at most one slot of the population: all
    individuals but the one at the drawn index stay where they are. *)
Theorem one_call_changes_one_slot (st : SessionState) (c : api_call) :
  exists idx, forall j, j <> idx ->
    population (session_step st c) !! j = population st !! j.
Proof.
  destruct c as [out_path steps d|candidate_id rating draw]; simpl.
  - destruct (generate_next_candidate_cases out_path steps d st)
      as [[-> _]|(child & idx & cid & _ & -> & _)]; simpl; [by exists 0%nat|].
    exists idx. intros j Hj. by apply list_lookup_insert_ne.
  - destruct (submit_rating_cases candidate_id rating draw st)
      as [[-> _]|(g & _ & [->|(idx & _ & ->)])]; simpl; [by exists 0%nat..|].
    exists idx. intros j Hj. by apply list_lookup_insert_ne.
Qed.

Lemma empty_population_yields_no_candidate (st : SessionState)
    (out_path : string) (steps : Z) (d : Draws) :
  population st = [] ->
  exists e,
    generate_next_candidate out_path steps d st
    = (set_generation (generation st + 1) st, Raise e).
Proof.
  intros Hpop. unfold generate_next_candidate.
  unfold mbind, sess_bind, update, read, call, mret, sess_ret. simpl.
  rewrite Hpop.
  destruct (except_TypeError (selection_pair _ _ _) _) as [parents|e];
    [|by eexists].
  destruct (except_TypeError _ _) as [child|e]; [|by eexists].
  destruct (mutation _ _ _ _) as [child'|e]; [|by eexists].
  simpl. by eexists.
Qed.

(** X18. With [population_size <= 0], [generate_midi_file] never writes a
    candidate: whatever the operators do on the empty population, the
    call raises, and the session it built holds no individual, no last
    genome and generation 1. *)
Theorem generate_midi_file_needs_a_population (out_path : string)
    (num_bars num_notes num_steps : Z) (pauses : bool) (key scale : string)
    (root bpm population_size num_mutations : Z) (mutation_prob : Q)
    (seeds : Z -> Z) (d : Draws) :
  population_size <= 0 ->
  exists e,
    generate_midi_file out_path num_bars num_notes num_steps pauses key scale
      root bpm population_size num_mutations mutation_prob seeds d
    = (mkSessionState num_bars num_notes pauses key scale bpm population_size
         num_mutations mutation_prob [] [] None None 1,
       Raise e).
Proof.
  intros Hsize. unfold generate_midi_file.
  set (st0 := init_session_state _ _ _ _ _ _ _ _ _ _).
  assert (population st0 = []) as Hpop
    by (unfold st0; simpl; unfold range; by rewrite seqZ_nil).
  destruct (empty_population_yields_no_candidate st0 out_path num_steps d Hpop)
    as [e ->].
  exists e. unfold set_generation. by rewrite Hpop.
Qed.

(** X19. In every state a caller can reach, a last genome comes with a
    last candidate id and a generation counter of at least 1, and it is a
    member of the population: neither the steady-state replacement nor the
    elitism overwrite ever removes the candidate that is to be rated. *)
Theorem last_genome_is_in_the_population (st : SessionState) (g : Genome) :
  reachable st ->
  last_genome st = Some g ->
  g ∈ population st /\ is_Some (last_candidate_id st) /\ 1 <= generation st.
Proof.
  intros Hreach. revert g.
  assert (0 <= generation st /\
          forall g, last_genome st = Some g ->
            g ∈ population st /\ is_Some (last_candidate_id st) /\
            1 <= generation st) as [_ H]; [|done].
  induction Hreach as [|st c _ [Hgen IH]]; [by split|].
  destruct c as [out_path steps d|candidate_id rating draw]; simpl.
  - destruct (generate_next_candidate_cases out_path steps d st)
      as [[-> _]|(child & idx & cid & Hidx & -> & _)]; simpl.
    + split; [lia|]. intros g Hg. destruct (IH g Hg) as (? & ? & ?).
      split_and!; [done|done|lia].
    + split; [lia|]. intros g [= <-]. split_and!; [|done|lia].
      apply list_elem_of_lookup. exists idx. by apply list_lookup_insert_eq.
  - destruct (submit_rating_cases candidate_id rating draw st)
      as [[-> _]|(g' & Hg' & [->|(idx & Hidx & ->)])]; simpl;
      [by split|by split|].
    split; [done|]. intros g Hg. rewrite Hg in Hg'. injection Hg' as <-.
    destruct (IH g Hg) as (_ & ? & ?). split_and!; [|done|done].
    apply list_elem_of_lookup. exists idx. by apply list_lookup_insert_eq.
Qed.

(** X20. The update is not atomic: when the operators return and a slot
    is drawn but rendering the child raises, [generate_next_candidate]
    raises that exception with the child already written into the drawn
    slot and recorded as the last genome under a new candidate id. A
    session with [num_notes = 0] is such a case (ZeroDivisionError). *)
Theorem rendering_failure_keeps_the_child (st : SessionState)
    (out_path : string) (steps : Z) (d : Draws)
    (parents children : Genome * Genome) (child : Genome) (e : exn) :
  selection_pair (selection_draw d) (population st)
                 (_fitness_lookup_from_ratings st) = Ok parents ->
  single_point_crossover (crossover_draw d) parents.1 parents.2 = Ok children ->
  mutation (mutation_draw d)
           (if Qle_bool (1 # 2) (coin d) then children.2 else children.1)
           (num_mutations st) (mutation_prob st) = Ok child ->
  population st <> [] ->
  save_genome_to_midi out_path child (num_bars st) (num_notes st) steps
    (pauses st) (key st) (scale st) 0 (bpm st) = Raise e ->
  generate_next_candidate out_path steps d st
  = (produced st child
       (Z.to_nat (replace_draw d `mod` Z.of_nat (length (population st))))
       (candidate_id_of (generation st + 1) (randint 100000 999999 (id_draw d))),
     Raise e) /\
  (num_notes st = 0 -> e = ZeroDivisionError).
Proof.
  intros Hsel Hcross Hmut Hpop Hsave.
  assert (0 < Z.of_nat (length (population st))) as Hlen
    by (destruct (population st); simpl in *; [done|lia]).
  split.
  - unfold generate_next_candidate.
    unfold mbind, sess_bind, update, read, call, mret, sess_ret. simpl.
    fold (_fitness_lookup_from_ratings st).
    assert (_fitness_lookup_from_ratings
              (set_generation (generation st + 1) st)
            = _fitness_lookup_from_ratings st) as -> by done.
    rewrite Hsel. simpl. rewrite Hcross. simpl. rewrite Hmut.
    unfold randrange.
    destruct (Z.leb_spec (Z.of_nat (length (population st))) 0); [lia|].
    by rewrite Hsave.
  - intros Hnotes. unfold save_genome_to_midi, genome_to_melody in Hsave.
    rewrite Hnotes in Hsave. simpl in Hsave. by injection Hsave as <-.
Qed.

End SessionFrame.

(** * Properties of the HTTP backend *)

Section BackendFacts.

Context {m21 : Music21} {ops : GeneticOps}.

Lemma generate_next_candidate_step out_path steps d st :
  (generate_next_candidate out_path steps d st).1
  = session_step st (ProduceCandidate out_path steps d).
Proof. done. Qed.

Lemma submit_rating_step candidate_id rating draw st :
  (submit_rating candidate_id rating draw st).1
  = session_step st (RecordRating candidate_id rating draw).
Proof. done. Qed.

Lemma session_step_last_genome st c :
  is_Some (last_genome st) -> is_Some (last_genome (session_step st c)).
Proof.
  destruct c as [out_path steps d|candidate_id rating draw]; simpl.
  - destruct (generate_next_candidate_cases out_path steps d st)
      as [[-> _]|(child & idx & cid & _ & -> & _)]; simpl; [done|by eexists].
  - destruct (submit_rating_cases candidate_id rating draw st)
      as [[-> _]|(g & _ & [->|(idx & _ & ->)])]; done.
Qed.

Lemma session_ok_step (s : Session) (c : api_call) cid :
  session_ok s ->
  session_ok (mkSession (session_step (sess_state s) c) cid (sess_out_dir s)
                        (sess_params s)).
Proof.
  intros (Hreach & Hlast & Hconf). unfold session_ok. simpl. split_and!.
  - by constructor.
  - by apply session_step_last_genome.
  - by rewrite session_step_configuration.
Qed.

(** X21. [POST /rate] works on one session only: it neither adds nor
    removes a session id and leaves every other session as it is. An
    unknown session id is answered with 404 and a rating outside [[0, 5]]
    with 400, and an answer of either kind changes nothing at all. *)
Theorem rate_touches_one_session (req : RateRequest) (ts draw : Z) (d : Draws)
    (SESSIONS : gmap string Session) :
  let out := rate req ts draw d SESSIONS in
  dom out.1 = dom SESSIONS /\
  (forall other, other <> rate_session_id req ->
     out.1 !! other = SESSIONS !! other) /\
  (SESSIONS !! rate_session_id req = None ->
     out = (SESSIONS, HTTPException 404 (Message "Unknown session_id"))) /\
  (is_Some (SESSIONS !! rate_session_id req) ->
   ~ 0 <= rate_rating req <= 5 ->
     out = (SESSIONS, HTTPException 400 (Message "rating must be 0..5"))) /\
  (forall status_code text,
     out.2 = HTTPException status_code (Message text) -> out.1 = SESSIONS).
Proof.
  unfold rate.
  destruct (SESSIONS !! rate_session_id req) as [sess|] eqn:Hsess; simpl;
    [|by split_and!; [done|done|done|intros [? ?]|done]].
  assert (forall s', dom (<[rate_session_id req := s']> SESSIONS) = dom SESSIONS)
    as Hdom.
  { intros s'. by apply dom_insert_lookup_L. }
  destruct (Z.leb_spec 0 (rate_rating req)), (Z.leb_spec (rate_rating req) 5);
    simpl; try (split_and!; [done|done|done|done|done]).
  destruct (submit_rating _ _ _ _) as [state [[]|e]]; simpl.
  - destruct (generate_next_candidate _ _ _ _) as [state' [cid|e]]; simpl;
      (split_and!; [apply Hdom|by intros; apply lookup_insert_ne|done
                   |intros _ Hr; lia|done]).
  - split_and!; [apply Hdom|by intros; apply lookup_insert_ne|done
                |intros _ Hr; lia|done].
Qed.

(** X22. [POST /generate] either answers with a file and stores exactly
    one session, under the new id, or answers 500 and stores nothing. The
    stored session holds the request as its parameters and a state made by
    one [generate_next_candidate] on a fresh population: generation 1, no
    rating, [max 0 population] individuals, and the candidate id of the
    header as its last candidate id. *)
Theorem generate_registers_the_session (req : GenerateRequest)
    (session_id : string) (out_dir : result string) (ts : Z) (seeds : Z -> Z)
    (d : Draws) (SESSIONS : gmap string Session) :
  match (generate req session_id out_dir ts seeds d SESSIONS).2 with
  | FileResponse path x_session_id x_candidate_id =>
      x_session_id = session_id /\
      exists dir state,
        out_dir = Ok dir /\ path = cand_path dir ts /\
        (generate req session_id out_dir ts seeds d SESSIONS).1
        = <[session_id := mkSession state x_candidate_id dir req]> SESSIONS /\
        last_candidate_id state = Some x_candidate_id /\
        is_Some (last_genome state) /\
        generation state = 1 /\
        ratings state = [] /\
        configuration state = request_configuration req /\
        Z.of_nat (length (population state)) = Z.max 0 (req_population req)
  | HTTPException status_code _ =>
      status_code = 500 /\
      (generate req session_id out_dir ts seeds d SESSIONS).1 = SESSIONS
  end.
Proof.
  unfold generate. destruct out_dir as [dir|e]; simpl; [|done].
  set (st0 := init_session_state _ _ _ _ _ _ _ _ _ _).
  destruct (generate_next_candidate_cases (cand_path dir ts) (req_steps req) d st0)
    as [[Hst [e He]]|(child & idx & cid & Hidx & Hst & Hres)];
    destruct (generate_next_candidate _ _ _ st0) as [state [cid'|e']];
    simpl in *; try done.
  destruct Hres as [[= ->]|[e [=]]]. subst state.
  split; [done|]. exists dir, (produced st0 child idx cid).
  split_and!; try done; try (by eexists).
  simpl. rewrite length_insert. unfold st0. simpl.
  unfold range. rewrite length_map, length_seqZ. lia.
Qed.

Lemma produce_keeps_session_ok (s : Session) out_path steps d out_dir params :
  reachable (sess_state s) ->
  configuration (sess_state s) = request_configuration params ->
  forall state cid,
    generate_next_candidate out_path steps d (sess_state s) = (state, Ok cid) ->
    session_ok (mkSession state cid out_dir params).
Proof.
  intros Hreach Hconf state cid Hout.
  pose proof (generate_next_candidate_cases out_path steps d (sess_state s)) as Hcases.
  pose proof (session_step_configuration (sess_state s)
                (ProduceCandidate out_path steps d)) as Hsame.
  pose proof (reachable_step (sess_state s) (ProduceCandidate out_path steps d)
                Hreach) as Hnext.
  simpl in Hcases, Hsame, Hnext. rewrite Hout in Hcases, Hsame, Hnext.
  simpl in Hcases, Hsame, Hnext.
  unfold session_ok. simpl. split_and!; [done| |congruence].
  destruct Hcases as [[_ [e [=]]]|(child & idx & cid' & _ & -> & _)]. by eexists.
Qed.

Lemma serve_keeps_sessions_ok (SESSIONS : gmap string Session) (r : request) :
  (forall sid s, SESSIONS !! sid = Some s -> session_ok s) ->
  forall sid s, (serve SESSIONS r).1 !! sid = Some s -> session_ok s.
Proof.
  intros Hok sid s. destruct r as [req session_id out_dir ts seeds d|req ts draw d];
    simpl.
  - unfold generate. destruct out_dir as [dir|e]; simpl; [|apply Hok].
    set (st0 := init_session_state _ _ _ _ _ _ _ _ _ _).
    destruct (generate_next_candidate (cand_path dir ts) (req_steps req) d st0)
      as [state [cid|e]] eqn:Hout; simpl; [|apply Hok].
    destruct (decide (session_id = sid)) as [->|Hne];
      [|rewrite lookup_insert_ne by done; apply Hok].
    rewrite lookup_insert_eq. intros [= <-].
    apply (produce_keeps_session_ok (mkSession st0 "" "" req)
             (cand_path dir ts) (req_steps req) d); [|done|done].
    apply reachable_init.
  - unfold rate.
    destruct (SESSIONS !! rate_session_id req) as [sess|] eqn:Hsess; simpl;
      [|apply Hok].
    destruct (negb _); simpl; [apply Hok|].
    pose proof (Hok _ _ Hsess) as Hsess_ok.
    pose proof (session_ok_step sess
                  (RecordRating (rate_candidate_id req) (rate_rating req) draw)
                  (sess_last_candidate_id sess) Hsess_ok) as Hrated.
    simpl in Hrated.
    destruct (submit_rating (rate_candidate_id req) (rate_rating req) draw
                (sess_state sess)) as [rated r1]. simpl in Hrated.
    assert (forall s', session_ok s' ->
              <[rate_session_id req := s']> SESSIONS !! sid = Some s ->
              session_ok s) as Hput.
    { intros s' Hs'.
      destruct (decide (rate_session_id req = sid)) as [->|Hne];
        [|rewrite lookup_insert_ne by done; apply Hok].
      rewrite lookup_insert_eq. by intros [= <-]. }
    destruct r1 as [[]|e]; simpl; [|by apply Hput].
    pose proof (session_ok_step _
                  (ProduceCandidate (cand_path (sess_out_dir sess) ts)
                     (req_steps (sess_params sess)) d)
                  (sess_last_candidate_id sess) Hrated) as Hfailed.
    simpl in Hfailed.
    destruct Hrated as (Hreach & _ & Hconf). simpl in Hreach, Hconf.
    destruct (generate_next_candidate (cand_path (sess_out_dir sess) ts)
                (req_steps (sess_params sess)) d rated)
      as [state [cid|e]] eqn:Hout; simpl in *; apply Hput; [|done].
    by apply (produce_keeps_session_ok
             (mkSession rated "" "" (sess_params sess))
             (cand_path (sess_out_dir sess) ts) (req_steps (sess_params sess)) d).
Qed.

Lemma served_sessions_ok (requests : list request) sid s :
  served requests !! sid = Some s -> session_ok s.
Proof.
  unfold served.
  assert (forall SESSIONS,
            (forall sid s, SESSIONS !! sid = Some s -> session_ok s) ->
            forall sid s,
              foldl (fun SESSIONS r => (serve SESSIONS r).1) SESSIONS requests
              !! sid = Some s -> session_ok s) as Hfold.
  { induction requests as [|r requests IH]; intros SESSIONS Hok; simpl; [done|].
    apply IH. by apply serve_keeps_sessions_ok. }
  apply Hfold. intros sid' s'. by rewrite lookup_empty.
Qed.

Lemma reachable_ratings_range (st : SessionState) :
  reachable st -> Forall (fun record : Genome * Z => 0 <= record.2 <= 5) (ratings st).
Proof.
  induction 1 as [|st c _ IH]; [constructor|].
  destruct (session_step_ratings st c) as (more & -> & Hmore & _).
  by apply Forall_app.
Qed.

(** X23. Every session a server holds, after any requests, was made by
    the session functions alone and is ready to be rated: it has a last
    genome, a population that is not empty and of the size requested
    ([max 0 population]), the parameters of the request that created it
    (with 2 mutations of probability 1/2), and ratings within [[0, 5]]. *)
Theorem stored_sessions_are_consistent (requests : list request)
    (sid : string) (s : Session) :
  served requests !! sid = Some s ->
  reachable (sess_state s) /\
  is_Some (last_genome (sess_state s)) /\
  population (sess_state s) <> [] /\
  configuration (sess_state s) = request_configuration (sess_params s) /\
  Forall (fun record : Genome * Z => 0 <= record.2 <= 5) (ratings (sess_state s)).
Proof.
  intros Hs. destruct (served_sessions_ok requests sid s Hs) as (Hreach & Hlast & Hconf).
  split_and!; [done|done| |done|by apply reachable_ratings_range].
  apply reachable_last_genome_population; [done|].
  destruct Hlast as [g ->]. done.
Qed.

(** X24. A rating in [[0, 5]] sent for a session the server holds is
    always recorded, whatever candidate id comes with it and whether the
    answer is the next file or a 500: the stored session gets exactly one
    new record, the last genome with the rating as sent. When the answer
    is a file, its candidate id is the session's new last candidate id and
    the generation counter is one higher. *)
Theorem accepted_rating_is_recorded (requests : list request)
    (req : RateRequest) (ts draw : Z) (d : Draws) (s : Session) :
  served requests !! rate_session_id req = Some s ->
  0 <= rate_rating req <= 5 ->
  let out := rate req ts draw d (served requests) in
  exists s' g,
    out.1 !! rate_session_id req = Some s' /\
    last_genome (sess_state s) = Some g /\
    ratings (sess_state s') = ratings (sess_state s) ++ [(g, rate_rating req)] /\
    sess_params s' = sess_params s /\
    sess_out_dir s' = sess_out_dir s /\
    match out.2 with
    | FileResponse path x_session_id x_candidate_id =>
        x_session_id = rate_session_id req /\
        path = cand_path (sess_out_dir s) ts /\
        sess_last_candidate_id s' = x_candidate_id /\
        last_candidate_id (sess_state s') = Some x_candidate_id /\
        generation (sess_state s') = generation (sess_state s) + 1
    | HTTPException status_code _ => status_code = 500
    end.
Proof.
  intros Hs Hrating.
  destruct (served_sessions_ok requests _ s Hs) as (Hreach & [g Hg] & Hconf).
  assert (population (sess_state s) <> []) as Hpop
    by (apply reachable_last_genome_population; [done|by rewrite Hg]).
  unfold rate. rewrite Hs. simpl.
  destruct (Z.leb_spec 0 (rate_rating req)); [|lia].
  destruct (Z.leb_spec (rate_rating req) 5); [|lia]. simpl.
  assert (Z.max 0 (Z.min 5 (rate_rating req)) = rate_rating req) as Hclamp by lia.
  assert (exists rated,
            submit_rating (rate_candidate_id req) (rate_rating req) draw
                          (sess_state s) = (rated, Ok tt) /\
            ratings rated = ratings (sess_state s) ++ [(g, rate_rating req)] /\
            generation rated = generation (sess_state s)) as (rated & -> & Hr & Hgen).
  { destruct (Z.lt_ge_cases (Z.max 0 (Z.min 5 (rate_rating req))) 4) as [Hlow|Hhigh].
    - rewrite (submit_rating_low _ _ _ _ g Hg Hlow). eexists. split; [done|].
      simpl. by rewrite Hclamp.
    - destruct (submit_rating_high (rate_candidate_id req) (rate_rating req) draw
                  (sess_state s) g Hg Hhigh Hpop) as [_ ->].
      eexists. split; [done|]. simpl. by rewrite Hclamp. }
  destruct (generate_next_candidate_cases (cand_path (sess_out_dir s) ts)
              (req_steps (sess_params s)) d rated)
    as [[Hst [e He]]|(child & idx & cid & Hidx & Hst & Hres)];
    destruct (generate_next_candidate _ _ _ rated) as [state [cid'|e']];
    simpl in *; try done; subst state;
    eexists _, g; rewrite lookup_insert_eq; (split; [done|]); simpl;
    split_and!; try done.
  - destruct Hres as [[= <-]|[e [=]]]. done.
  - destruct Hres as [[= <-]|[e [=]]]. lia.
Qed.

End BackendFacts.

(** * The properties on a session that runs *)

Lemma generate_midi_file_needs_a_population_witness :
  0 <= 0 /\
  exists e,
    generate_midi_file (m21 := c4_music21) (ops := spec_ops) "out.mid" 1 2 1 true
      "C" "major" 0 120 0 2 (1 # 2) (fun i => i) demo_draws
    = (mkSessionState 1 2 true "C" "major" 120 0 2 (1 # 2) [] [] None None 1,
       Raise e).
Proof.
  split; [done|].
  apply (generate_midi_file_needs_a_population (m21 := c4_music21) (ops := spec_ops)
           "out.mid" 1 2 1 true "C" "major" 0 120 0 2 (1 # 2) (fun i => i) demo_draws).
  done.
Defined.

Lemma last_genome_is_in_the_population_witness :
  (reachable (m21 := c4_music21) (ops := spec_ops) demo_session /\
   last_genome demo_session = Some [0; 0; 0; 1; 0; 0; 1; 0]) /\
  [0; 0; 0; 1; 0; 0; 1; 0] ∈ population demo_session /\
  is_Some (last_candidate_id demo_session) /\
  1 <= generation demo_session.
Proof.
  split; [split; [apply demo_session_reachable|reflexivity]|].
  apply (last_genome_is_in_the_population (m21 := c4_music21) (ops := spec_ops)
           demo_session [0; 0; 0; 1; 0; 0; 1; 0] demo_session_reachable eq_refl).
Defined.

Lemma rendering_failure_keeps_the_child_witness :
  (selection_pair (GeneticOps := spec_ops) (selection_draw demo_draws)
     (population demo_init) (_fitness_lookup_from_ratings demo_init)
   = Ok ([0; 1; 0; 1; 0; 0; 1; 0], [1; 1; 1; 1; 0; 1; 1; 0]) /\
   population demo_init <> [] /\
   save_genome_to_midi (m21 := c4_read_only) "cand.mid" [0; 0; 0; 1; 0; 0; 1; 0]
     1 2 1 true "C" "major" 0 120 = Raise OSError) /\
  generate_next_candidate (m21 := c4_read_only) (ops := spec_ops)
    "cand.mid" 1 demo_draws demo_init
  = (demo_session, Raise OSError).
Proof.
  split; [split_and!; [reflexivity|discriminate|reflexivity]|].
  destruct (rendering_failure_keeps_the_child (m21 := c4_read_only) (ops := spec_ops)
              demo_init "cand.mid" 1 demo_draws
              ([0; 1; 0; 1; 0; 0; 1; 0], [1; 1; 1; 1; 0; 1; 1; 0])
              ([0; 1; 0; 1; 0; 0; 1; 0], [1; 1; 1; 1; 0; 1; 1; 0])
              [0; 0; 0; 1; 0; 0; 1; 0] OSError
              eq_refl eq_refl eq_refl ltac:(discriminate) eq_refl) as [-> _].
  reflexivity.
Defined.

Lemma stored_sessions_are_consistent_witness :
  demo_server !! "session-1"%string = Some demo_stored /\
  reachable (m21 := c4_music21) (ops := spec_ops) (sess_state demo_stored) /\
  is_Some (last_genome (sess_state demo_stored)) /\
  population (sess_state demo_stored) <> [] /\
  configuration (sess_state demo_stored)
  = request_configuration (sess_params demo_stored) /\
  Forall (fun record : Genome * Z => 0 <= record.2 <= 5)
         (ratings (sess_state demo_stored)).
Proof.
  assert (demo_server !! "session-1"%string = Some demo_stored) as Hs
    by (vm_compute; reflexivity).
  split; [exact Hs|].
  apply (stored_sessions_are_consistent (m21 := c4_music21) (ops := spec_ops)
           demo_requests "session-1" demo_stored Hs).
Defined.

Lemma accepted_rating_is_recorded_witness :
  (demo_server !! rate_session_id demo_rate_request = Some demo_stored /\
   0 <= rate_rating demo_rate_request <= 5) /\
  exists s' g,
    (rate (m21 := c4_music21) (ops := spec_ops) demo_rate_request 1700000060 4
          (mkDraws 11 0 1 3 0 (3 # 4) 777 0 5) demo_server).1
    !! "session-1"%string = Some s' /\
    last_genome demo_session = Some g /\
    ratings (sess_state s') = ratings demo_session ++ [(g, 5)] /\
    sess_params s' = demo_request /\
    sess_out_dir s' = "/tmp/musicga_1"%string /\
    match (rate (m21 := c4_music21) (ops := spec_ops) demo_rate_request 1700000060 4
                (mkDraws 11 0 1 3 0 (3 # 4) 777 0 5) demo_server).2 with
    | FileResponse path x_session_id x_candidate_id =>
        x_session_id = "session-1"%string /\
        path = cand_path "/tmp/musicga_1" 1700000060 /\
        sess_last_candidate_id s' = x_candidate_id /\
        last_candidate_id (sess_state s') = Some x_candidate_id /\
        generation (sess_state s') = generation demo_session + 1
    | HTTPException status_code _ => status_code = 500
    end.
Proof.
  assert (demo_server !! rate_session_id demo_rate_request = Some demo_stored) as Hs
    by (vm_compute; reflexivity).
  split; [split; [exact Hs|done]|].
  apply (accepted_rating_is_recorded (m21 := c4_music21) (ops := spec_ops)
           demo_requests demo_rate_request 1700000060 4
           (mkDraws 11 0 1 3 0 (3 # 4) 777 0 5) demo_stored Hs).
  done.
Defined.

(** The answer to [demo_rate_request]: the next candidate, rated or not
    the id sent was one the server had issued. *)
Example demo_rate_response :
  (rate (m21 := c4_music21) (ops := spec_ops) demo_rate_request 1700000060 4
        (mkDraws 11 0 1 3 0 (3 # 4) 777 0 5) demo_server).2
  = FileResponse "/tmp/musicga_1/cand_1700000060.mid" "session-1" "g2_100005".
Proof. vm_compute. reflexivity. Qed.

(** * Candidate ids *)

Lemma pretty_N_char_digit (x : N) : is_Some (Ascii.is_nat (pretty_N_char x)).
Proof. unfold pretty_N_char. repeat case_match; by eexists. Qed.

Lemma pretty_N_go_digits (x : N) (s : string) :
  digits_only s = true -> digits_only (pretty_N_go x s) = true.
Proof.
  revert s. induction (N.lt_wf_0 x) as [x _ IH]; intros s Hs.
  destruct (decide (x = 0)%N) as [->|Hx]; [by rewrite pretty_N_go_0|].
  rewrite pretty_N_go_step by lia. apply IH; [apply N.div_lt; lia|].
  simpl. by destruct (pretty_N_char_digit (x `mod` 10)) as [n ->].
Qed.

Lemma pretty_Z_digits (z : Z) : 0 <= z -> digits_only (pretty z) = true.
Proof.
  intros Hz. destruct z as [|p|p]; [done| |lia].
  unfold pretty, pretty_Z, pretty, pretty_positive, pretty, pretty_N.
  destruct (decide (N.pos p = 0)%N); [done|]. by apply pretty_N_go_digits.
Qed.

Lemma digits_split_unique (d1 d2 r1 r2 : string) :
  digits_only d1 = true -> digits_only d2 = true ->
  d1 +:+ "_" +:+ r1 = d2 +:+ "_" +:+ r2 -> d1 = d2 /\ r1 = r2.
Proof.
  revert d2. induction d1 as [|a d1 IH]; intros [|b d2] H1 H2 Heq.
  - change (String "_" r1 = String "_" r2) in Heq. by injection Heq as ->.
  - change (String "_" r1 = String b (d2 +:+ "_" +:+ r2)) in Heq.
    injection Heq as <- _. done.
  - change (String a (d1 +:+ "_" +:+ r1) = String "_" r2) in Heq.
    injection Heq as -> _. done.
  - change (String a (d1 +:+ "_" +:+ r1) = String b (d2 +:+ "_" +:+ r2)) in Heq.
    injection Heq as -> Heq. simpl in H1, H2.
    destruct (Ascii.is_nat b); [|done].
    destruct (IH d2 H1 H2 Heq) as [-> ->]. done.
Qed.

Lemma candidate_id_of_inj (g g' n n' : Z) :
  0 <= g -> 0 <= g' ->
  candidate_id_of g n = candidate_id_of g' n' -> g = g' /\ n = n'.
Proof.
  intros Hg Hg' Heq. unfold candidate_id_of in Heq.
  apply (inj (String.app "g")) in Heq.
  apply digits_split_unique in Heq as [Hgen Hn]; [|by apply pretty_Z_digits..].
  split; by apply (inj pretty).
Qed.

Section IdFacts.

Context {m21 : Music21} {ops : GeneticOps}.

Lemma generate_next_candidate_id out_path steps d st cid :
  (generate_next_candidate out_path steps d st).2 = Ok cid ->
  cid = candidate_id_of (generation st + 1) (randint 100000 999999 (id_draw d)).
Proof.
  unfold generate_next_candidate.
  unfold mbind, sess_bind, update, read, call, mret, sess_ret. simpl.
  destruct (except_TypeError (selection_pair _ _ _) _) as [parents|e]; [|done].
  destruct (except_TypeError _ _) as [child|e]; [|done].
  destruct (mutation _ _ _ _) as [child'|e]; [|done].
  destruct (randrange _ _) as [idx|e]; [|done].
  destruct (save_genome_to_midi _ _ _ _ _ _ _ _ _ _); simpl; [|done].
  by intros [= <-].
Qed.

Lemma returned_ids_generations (st : SessionState) (calls : list api_call) cid :
  cid ∈ returned_ids st calls ->
  exists g n, generation st < g /\ cid = candidate_id_of g n.
Proof.
  revert st. induction calls as [|c calls IH]; intros st; simpl.
  { by intros ?%elem_of_nil. }
  intros [Hhere|Hlater]%elem_of_app.
  - destruct c as [out_path steps d|]; [|by apply elem_of_nil in Hhere].
    destruct (generate_next_candidate out_path steps d st).2 as [cid'|e] eqn:Hout;
      [|by apply elem_of_nil in Hhere].
    apply list_elem_of_singleton in Hhere as ->.
    apply generate_next_candidate_id in Hout.
    eexists _, _. split; [|exact Hout]. lia.
  - destruct (IH _ Hlater) as (g & n & Hg & ->).
    exists g, n. split; [|done].
    rewrite session_step_generation in Hg. destruct (is_produce c); lia.
Qed.

(** X25. Within a session no candidate id is issued twice: the ids that
    the calls of a run return are pairwise different, each carrying the
    number of its generation, which only grows. *)
Theorem candidate_ids_are_unique (st : SessionState) (calls : list api_call) :
  0 <= generation st ->
  NoDup (returned_ids st calls).
Proof.
  revert st. induction calls as [|c calls IH]; intros st Hgen; simpl;
    [constructor|].
  assert (0 <= generation (session_step st c)) as Hnext
    by (rewrite session_step_generation; destruct (is_produce c); lia).
  destruct c as [out_path steps d|]; [|by apply IH].
  destruct (generate_next_candidate out_path steps d st).2 as [cid|e] eqn:Hout;
    [|by apply IH].
  simpl. constructor; [|by apply IH].
  intros Hin. apply returned_ids_generations in Hin as (g & n & Hg & Hcid).
  pose proof (session_step_generation st (ProduceCandidate out_path steps d))
    as Hstep. simpl in Hstep. rewrite Hstep in Hg.
  apply generate_next_candidate_id in Hout. rewrite Hout in Hcid.
  apply candidate_id_of_inj in Hcid as [Heq _]; lia.
Qed.

End IdFacts.

Lemma candidate_ids_are_unique_witness :
  0 <= generation demo_init /\
  NoDup (returned_ids (m21 := c4_music21) (ops := spec_ops) demo_init
           [ProduceCandidate "cand.mid" 1 demo_draws;
            RecordRating "g1_104242" 3 0;
            ProduceCandidate "cand.mid" 1 (mkDraws 11 0 1 3 0 (3 # 4) 777 0 5)]).
Proof.
  split; [done|].
  apply (candidate_ids_are_unique (m21 := c4_music21) (ops := spec_ops)).
  done.
Defined.

Example demo_returned_ids :
  returned_ids (m21 := c4_music21) (ops := spec_ops) demo_init
    [ProduceCandidate "cand.mid" 1 demo_draws;
     RecordRating "g1_104242" 3 0;
     ProduceCandidate "cand.mid" 1 (mkDraws 11 0 1 3 0 (3 # 4) 777 0 5)]
  = ["g1_104242"; "g2_100005"]%string.
Proof. vm_compute. reflexivity. Qed.

(** * The session over the operators of the specification *)

(** ** The operators *)

Lemma spec_generate_genome_length (seed genome_length : Z) :
  length (SpecOps.generate_genome seed genome_length) = Z.to_nat genome_length.
Proof. unfold SpecOps.generate_genome, range. by rewrite length_map, length_seqZ. Qed.

Lemma roulette_member population fitnessFn ticket g :
  SpecOps.roulette population fitnessFn ticket = Ok g -> g ∈ population.
Proof.
  revert ticket. induction population as [|g' rest IH]; intros ticket; simpl; [done|].
  destruct (ticket <? fitnessFn g' + 1).
  - intros [= ->]. apply list_elem_of_here.
  - intros H. apply list_elem_of_further. by eapply IH.
Qed.

Lemma roulette_ok population fitnessFn ticket :
  0 <= ticket < foldr Z.add 0 (map (fun g => fitnessFn g + 1) population) ->
  exists g, SpecOps.roulette population fitnessFn ticket = Ok g.
Proof.
  revert ticket. induction population as [|g' rest IH]; intros ticket; simpl; [lia|].
  intros Ht. destruct (Z.ltb_spec ticket (fitnessFn g' + 1)); [by eexists|].
  apply IH. lia.
Qed.

Lemma spec_selection_pair_member seed population fitnessFn a b :
  SpecOps.selection_pair seed population fitnessFn = Ok (a, b) ->
  a ∈ population /\ b ∈ population.
Proof.
  unfold SpecOps.selection_pair. cbv zeta.
  destruct (_ || _); [done|].
  destruct (SpecOps.roulette _ _ (seed `mod` _)) as [a'|] eqn:Ha; simpl; [|done].
  destruct (SpecOps.roulette _ _ ((seed `div` _) `mod` _)) as [b'|] eqn:Hb;
    simpl; [|done].
  intros ?; simplify_eq. split; by eapply roulette_member.
Qed.

Lemma spec_selection_pair_ok seed population fitnessFn :
  (2 <= length population)%nat ->
  0 < foldr Z.add 0 (map (fun g => fitnessFn g + 1) population) ->
  exists parents, SpecOps.selection_pair seed population fitnessFn = Ok parents.
Proof.
  intros Hlen Htotal. unfold SpecOps.selection_pair. cbv zeta.
  set (total := foldr Z.add 0 (map (fun g => fitnessFn g + 1) population)) in *.
  rewrite bool_decide_false by lia.
  destruct (Z.leb_spec total 0); [lia|]. simpl.
  destruct (roulette_ok population fitnessFn (seed `mod` total)) as [a Ha];
    [by apply Z.mod_pos_bound|].
  destruct (roulette_ok population fitnessFn ((seed `div` total) `mod` total))
    as [b Hb]; [by apply Z.mod_pos_bound|].
  rewrite Ha. simpl. rewrite Hb. simpl. by eexists.
Qed.

Lemma zero_fitness_total (population : list Genome) :
  foldr Z.add 0 (map (fun _ : Genome => 0 + 1) population)
  = Z.of_nat (length population).
Proof. induction population as [|g rest IH]; simpl; lia. Qed.

Lemma spec_crossover_length seed a b c1 c2 :
  SpecOps.single_point_crossover seed a b = Ok (c1, c2) ->
  length c1 = length a /\ length c2 = length a.
Proof.
  unfold SpecOps.single_point_crossover.
  case_bool_decide as Hab; simpl; [|done].
  case_bool_decide as Hshort; [done|].
  intros ?; simplify_eq.
  assert (0 < Z.of_nat (length a) - 1) as Hpos by lia.
  pose proof (Z.mod_pos_bound seed _ Hpos).
  rewrite !length_app, !length_take, !length_drop. lia.
Qed.

Lemma spec_crossover_ok seed a b :
  length a = length b -> (2 <= length a)%nat ->
  exists children, SpecOps.single_point_crossover seed a b = Ok children.
Proof.
  intros Hab Hlen. unfold SpecOps.single_point_crossover.
  rewrite bool_decide_true by done. simpl.
  rewrite bool_decide_false by lia. by eexists.
Qed.

Lemma spec_mutation_trials_length trials seed genome p :
  length (SpecOps.mutation_trials trials seed genome p) = length genome.
Proof.
  revert seed genome. induction trials as [|trials IH]; intros seed genome;
    simpl; [done|].
  rewrite IH. destruct (Qle_bool _ _); [done|apply length_alter].
Qed.

Lemma spec_mutation_length seed genome n p child :
  SpecOps.mutation seed genome n p = Ok child -> length child = length genome.
Proof.
  unfold SpecOps.mutation. destruct (_ && _); [done|].
  intros [= <-]. apply spec_mutation_trials_length.
Qed.

Lemma spec_mutation_ok seed genome n p :
  genome <> [] -> exists child, SpecOps.mutation seed genome n p = Ok child.
Proof.
  intros H. unfold SpecOps.mutation. rewrite bool_decide_false by done.
  simpl. by eexists.
Qed.

Lemma random_sample2_member {A} (population : list A) d1 d2 a b :
  random_sample2 population d1 d2 = Ok (a, b) -> a ∈ population /\ b ∈ population.
Proof.
  unfold random_sample2. cbv zeta. intros H.
  repeat case_match; try done; simplify_eq.
  all: split; apply list_elem_of_lookup; eauto.
Qed.

Section SpecSession.

Context {m21 : Music21}.

Lemma genome_to_melody_ok (genome : Genome) (num_bars num_notes num_steps : Z)
    (pauses : bool) (key scale_name : string) (root : Z) :
  num_notes <> 0 -> getPitches (MajorScale key) <> [] ->
  exists melody,
    genome_to_melody genome num_bars num_notes num_steps pauses key scale_name root
    = Ok melody.
Proof.
  intros Hnotes Hmajor. unfold genome_to_melody, note_length_of.
  destruct (Z.eqb_spec num_notes 0) as [|_]; [done|]. simpl.
  destruct (expand_steps_total (resolve_pitches key scale_name) num_steps
              (notes (decode_chunks pauses (4 / inject_Z num_notes)
                        (chunks_of genome num_bars num_notes))))
    as [steps Hsteps]; [by apply resolve_pitches_nonempty|].
  rewrite Hsteps. by eexists.
Qed.

Lemma well_sized_init num_bars num_notes pauses key scale bpm population_size
    num_mutations mutation_prob seeds :
  well_sized (init_session_state (ops := spec_ops) num_bars num_notes pauses key
                scale bpm population_size num_mutations mutation_prob seeds).
Proof.
  split_and!; simpl; [|apply Forall_forall|done].
  - unfold range. by rewrite length_map, length_seqZ.
  - intros g Hg. apply list_elem_of_fmap in Hg as (i & -> & _).
    apply spec_generate_genome_length.
Qed.

Lemma well_sized_produced st child idx cid :
  well_sized st ->
  length child = Z.to_nat (num_bars st * num_notes st * BITS_PER_NOTE) ->
  well_sized (produced st child idx cid).
Proof.
  intros (Hsize & Hpop & Hlast) Hchild. split_and!; simpl.
  - by rewrite length_insert.
  - by apply Forall_insert.
  - by intros g [= <-].
Qed.

Lemma well_sized_member st g :
  well_sized st -> g ∈ population st ->
  length g = Z.to_nat (num_bars st * num_notes st * BITS_PER_NOTE).
Proof.
  intros (_ & Hpop & _) Hg. by apply (proj1 (Forall_forall _ _) Hpop).
Qed.

Lemma spec_child_length (d : Draws) (a b child : Genome) :
  except_TypeError
    (children ← SpecOps.single_point_crossover (crossover_draw d) a b;
     Ok (if Qle_bool (1 # 2) (coin d) then children.2 else children.1))
    (_ ← SpecOps.single_point_crossover (crossover_draw2 d) a b;
     Raise TypeError)
  = Ok child ->
  length child = length a.
Proof.
  destruct (SpecOps.single_point_crossover (crossover_draw d) a b)
    as [[c1 c2]|e] eqn:Hcross; simpl.
  - intros [= <-]. apply spec_crossover_length in Hcross as [? ?].
    by destruct (Qle_bool _ _).
  - destruct e; simpl; try done.
    by destruct (SpecOps.single_point_crossover (crossover_draw2 d) a b).
Qed.

Lemma spec_produce_well_sized out_path steps d st :
  well_sized st ->
  well_sized (generate_next_candidate (ops := spec_ops) out_path steps d st).1.
Proof.
  intros Hst.
  assert (well_sized (set_generation (generation st + 1) st)) as Hgen by done.
  unfold generate_next_candidate.
  unfold mbind, sess_bind, update, read, call, mret, sess_ret. simpl.
  destruct (except_TypeError (SpecOps.selection_pair _ _ _) _)
    as [[a b]|e] eqn:Hsel; [|done].
  assert (a ∈ population st) as Ha.
  { unfold except_TypeError in Hsel.
    destruct (SpecOps.selection_pair _ _ _) as [parents|[]] eqn:Hpair;
      simplify_eq.
    - by apply spec_selection_pair_member in Hpair as [? _].
    - by apply random_sample2_member in Hsel as [? _]. }
  clear Hsel. simpl.
  destruct (except_TypeError _ _) as [child0|e] eqn:Hchild0; [|done].
  apply (spec_child_length d a b child0) in Hchild0.
  destruct (SpecOps.mutation _ _ _ _) as [child|e] eqn:Hchild; [|done].
  apply spec_mutation_length in Hchild.
  destruct (randrange _ _) as [idx|e]; [|done].
  assert (well_sized
            (produced st child (Z.to_nat idx)
               (candidate_id_of (generation st + 1)
                  (randint 100000 999999 (id_draw d))))) as Hproduced.
  { apply well_sized_produced; [done|].
    rewrite Hchild, Hchild0. by apply well_sized_member. }
  by destruct (save_genome_to_midi _ _ _ _ _ _ _ _ _ _).
Qed.

Lemma submit_rating_well_sized candidate_id rating draw st :
  well_sized st -> well_sized (submit_rating candidate_id rating draw st).1.
Proof.
  intros Hst.
  destruct (submit_rating_cases candidate_id rating draw st)
    as [[-> _]|(g & Hg & [->|(idx & _ & ->)])]; [done|done|].
  destruct Hst as (Hsize & Hpop & Hlast). split_and!; simpl.
  - by rewrite length_insert.
  - apply Forall_insert; [done|by apply Hlast].
  - done.
Qed.

Lemma reachable_well_sized st :
  reachable (ops := spec_ops) st -> well_sized st.
Proof.
  induction 1 as [|st c _ IH]; [apply well_sized_init|].
  destruct c; simpl.
  - by apply spec_produce_well_sized.
  - by apply submit_rating_well_sized.
Qed.

Lemma spec_produce_on_empty_history out_path steps d st :
  well_sized st ->
  ratings st = [] ->
  2 <= population_size st ->
  0 < num_bars st * num_notes st ->
  getPitches (MajorScale (key st)) <> [] ->
  exists child idx melody,
    (idx < length (population st))%nat /\
    genome_to_melody child (num_bars st) (num_notes st) steps (pauses st)
                     (key st) (scale st) 0 = Ok melody /\
    generate_next_candidate (ops := spec_ops) out_path steps d st
    = (produced st child idx
         (candidate_id_of (generation st + 1) (randint 100000 999999 (id_draw d))),
       match write_midi melody (bpm st) out_path with
       | Ok _ =>
           Ok (candidate_id_of (generation st + 1)
                 (randint 100000 999999 (id_draw d)))
       | Raise e => Raise e
       end).
Proof.
  intros Hst Hempty Hsize Hlength Hmajor.
  pose proof Hst as (Hpopsize & _ & _).
  assert (2 <= length (population st))%nat as Hpop by lia.
  assert (2 <= Z.to_nat (num_bars st * num_notes st * BITS_PER_NOTE))%nat
    as Hbits by (unfold BITS_PER_NOTE; lia).
  assert (num_notes st <> 0) as Hnotes by lia.
  destruct (spec_selection_pair_ok (selection_draw d) (population st)
              (fun _ => 0)) as [[a b] Hsel]; [done|rewrite zero_fitness_total; lia|].
  destruct (spec_selection_pair_member _ _ _ _ _ Hsel) as [Ha Hb].
  apply (well_sized_member st a Hst) in Ha.
  apply (well_sized_member st b Hst) in Hb.
  destruct (spec_crossover_ok (crossover_draw d) a b) as [[c1 c2] Hcross];
    [congruence|lia|].
  destruct (spec_crossover_length _ _ _ _ _ Hcross) as [Hc1 Hc2].
  set (child0 := if Qle_bool (1 # 2) (coin d) then c2 else c1).
  assert (length child0 = length a) as Hchild0
    by (unfold child0; by destruct (Qle_bool _ _)).
  destruct (spec_mutation_ok (mutation_draw d) child0 (num_mutations st)
              (mutation_prob st)) as [child Hchild].
  { intros Hnil. rewrite Hnil in Hchild0. simpl in Hchild0. lia. }
  destruct (genome_to_melody_ok child (num_bars st) (num_notes st) steps
              (pauses st) (key st) (scale st) 0 Hnotes Hmajor) as [melody Hmelody].
  exists child,
    (Z.to_nat (replace_draw d `mod` Z.of_nat (length (population st)))), melody.
  split.
  { pose proof (Z.mod_pos_bound (replace_draw d)
                  (Z.of_nat (length (population st)))). lia. }
  split; [done|].
  unfold generate_next_candidate.
  unfold mbind, sess_bind, update, read, call, mret, sess_ret. simpl.
  unfold _fitness_lookup_from_ratings. simpl. rewrite Hempty. simpl.
  rewrite Hsel. simpl. rewrite Hcross. simpl. fold child0. rewrite Hchild.
  unfold randrange.
  destruct (Z.leb_spec (Z.of_nat (length (population st))) 0); [lia|].
  unfold save_genome_to_midi. rewrite Hmelody. simpl.
  by destruct (write_midi _ _ _).
Qed.

End SpecSession.

(** C8. The fitness lookup returns the rating of a record of the history
    whose genome equals the queried one, and 0 when the history has no such
    record; with an empty history it is 0 everywhere. With the operators of
    the specification, [generate_next_candidate] then does not fail for
    want of ratings: in a session a caller can hold, created with at least
    two individuals and a positive number of chunks, on a key whose major
    scale has pitches, a call on an empty history breeds a child under the
    all-zero fitness, decodes it, puts it into the population as the last
    genome and returns the candidate id, unless writing the file raises. *)
Theorem fitness_lookup_rating_or_zero {m21 : Music21} (st : SessionState) :
  (forall genome,
     (exists r, (genome, r) ∈ ratings st /\
                _fitness_lookup_from_ratings st genome = r)
     \/ ((forall r, (genome, r) ∉ ratings st) /\
         _fitness_lookup_from_ratings st genome = 0))
  /\ (ratings st = [] ->
      (forall genome, _fitness_lookup_from_ratings st genome = 0) /\
      (reachable (ops := spec_ops) st ->
       2 <= population_size st ->
       0 < num_bars st * num_notes st ->
       getPitches (MajorScale (key st)) <> [] ->
       forall out_path steps d,
       exists child idx melody,
         (idx < length (population st))%nat /\
         genome_to_melody child (num_bars st) (num_notes st) steps (pauses st)
                          (key st) (scale st) 0 = Ok melody /\
         generate_next_candidate (ops := spec_ops) out_path steps d st
         = (produced st child idx
              (candidate_id_of (generation st + 1)
                 (randint 100000 999999 (id_draw d))),
            match write_midi melody (bpm st) out_path with
            | Ok _ =>
                Ok (candidate_id_of (generation st + 1)
                      (randint 100000 999999 (id_draw d)))
            | Raise e => Raise e
            end))).
Proof.
  split.
  - intros genome. unfold _fitness_lookup_from_ratings.
    induction (ratings st) as [|[g r] records IH]; simpl.
    + right. split; [|done]. intros r. apply not_elem_of_nil.
    + case_bool_decide as Heq.
      * subst g. left. exists r. split; [apply list_elem_of_here|done].
      * destruct IH as [(r' & Hin & Hr')|[Hnone Hzero]].
        -- left. exists r'. split; [by apply list_elem_of_further|done].
        -- right. split; [|done]. intros r' Hin.
           apply elem_of_cons in Hin as [[= ? ?]|Hin]; [done|by apply (Hnone r')].
  - intros Hempty. split.
    + intros genome. unfold _fitness_lookup_from_ratings. by rewrite Hempty.
    + intros Hreach Hsize Hlength Hmajor out_path steps d.
      apply spec_produce_on_empty_history; try done.
      by apply reachable_well_sized.
Qed.

Lemma fitness_lookup_rating_or_zero_witness :
  (ratings demo_init = [] /\
   reachable (m21 := c4_music21) (ops := spec_ops) demo_init /\
   2 <= population_size demo_init /\
   0 < num_bars demo_init * num_notes demo_init /\
   getPitches (Music21 := c4_music21) (MajorScale (key demo_init)) <> []) /\
  (forall genome, _fitness_lookup_from_ratings demo_init genome = 0) /\
  exists child idx melody,
    (idx < length (population demo_init))%nat /\
    genome_to_melody (m21 := c4_music21) child 1 2 1 true "C" "major" 0
    = Ok melody /\
    generate_next_candidate (m21 := c4_music21) (ops := spec_ops)
      "cand.mid" 1 demo_draws demo_init
    = (produced demo_init child idx "g1_104242", Ok "g1_104242"%string).
Proof.
  assert (reachable (m21 := c4_music21) (ops := spec_ops) demo_init) as Hreach
    by apply reachable_init.
  split; [split_and!; [reflexivity|exact Hreach|done|done|discriminate]|].
  destruct (fitness_lookup_rating_or_zero (m21 := c4_music21) demo_init)
    as [_ Hempty].
  destruct (Hempty eq_refl) as [Hzero Hrun].
  split; [exact Hzero|].
  apply (Hrun Hreach); [done|done|discriminate].
Defined.
